(** * wcwidth.awk: the width-table generator and the wcswidth test harness

    A shallow embedding of [generate-width-data.c] (the range compressor)
    and of [test-data/wcswidths.c] (the per-line width harness), with the
    properties of the range records and of the per-line results. *)

From Stdlib Require Import String DecimalString Ascii.
From Stdlib Require DecimalZ DecimalPos.
From Stdlib Require Import ZArith List Bool Lia.
Import ListNotations.
Local Open Scope Z_scope.

(** ** Output streams

    Both programs only ever call [printf] on standard output and give up
    as soon as one call reports a negative result.  A stream records the
    items printed so far, in order, and how many further calls will still
    succeed ([None]: the stream never fails). *)

Record ostream (A : Type) : Type := mkOstream {
  written : list A;
  room : option nat
}.
Arguments mkOstream {A} _ _.
Arguments written {A} _.
Arguments room {A} _.

(** [printf x o] is [None] when the call fails (negative return value). *)
Definition printf {A : Type} (x : A) (o : ostream A) : option (ostream A) :=
  match room o with
  | None => Some (mkOstream (written o ++ [x]) None)
  | Some O => None
  | Some (S k) => Some (mkOstream (written o ++ [x]) (Some k))
  end.

(** A fresh stream on which every write succeeds. *)
Definition good_stream {A : Type} : ostream A := mkOstream [] None.

(** Decimal rendering of ["%d"] / ["%i"]. *)
Definition show_int (z : Z) : string :=
  NilZero.string_of_int (Z.to_int z).

(** A string without blank and without newline. *)
Fixpoint plain (s : string) : Prop :=
  match s with
  | EmptyString => True
  | String c s' =>
      c <> " "%char /\ c <> Ascii.ascii_of_nat 10 /\ plain s'
  end.

(** How [main] returned: [return 0], or [return 1] after the diagnostic
    whose text starts with [cause] was sent to standard error. *)
Inductive exit : Type :=
  | Success
  | Failure (cause : string).

Definition exit_code (x : exit) : Z :=
  match x with
  | Success => 0
  | Failure _ => 1
  end.

Module Compressor.

(** ** generate-width-data.c

    [wchar_t] and [int] are taken to be 32 bits wide, as they are where
    the locale C.UTF-8 exists: the index [i] runs from 0 to 0x110000 and
    [x - 1] is taken of values in that interval only, so no operation
    wraps around and the values are integers of [Z]. *)

(** The macro [IS_BOUNDARY(x)], disjunct by disjunct. *)
Definition IS_BOUNDARY (x : Z) : bool :=
  (x =? 0x80) ||
  (x =? 0x800) ||
  (x =? 0x10000) ||
  (x =? 0x10FFFF) ||
  ((x =? 0xD800) || (x - 1 =? 0xDFFF)) ||
  ((x =? 0xE000) || (x - 1 =? 0xF8FF)) ||
  ((x =? 0xF0000) || (x - 1 =? 0xFFFFD)) ||
  ((x =? 0x100000) || (x - 1 =? 0x10FFFD)).

(** The eleven code points of the mandatory boundary set. *)
Definition boundary_set : list Z :=
  [0x80; 0x800; 0x10000; 0x10FFFF; 0xD800; 0xE000; 0xF900;
   0xF0000; 0xFFFFE; 0x100000; 0x10FFFE].

(** One printed line: ["%d %d %d\n"] of [previous_width], [start], [end]. *)
Record range : Type := mkRange {
  width : Z;
  first : Z;
  last : Z
}.

Definition show_range (r : range) : string :=
  (show_int (width r) ++ " " ++ show_int (first r) ++ " "
     ++ show_int (last r) ++ String (Ascii.ascii_of_nat 10) "")%string.

(** The variables of [main] that live across iterations. *)
Record vars : Type := mkVars {
  previous_width : Z;
  start : Z;
  end_ : Z
}.

Section Scan.

(** [wcwidth(3)] under the locale the program selects. *)
Variable wcwidth : Z -> Z.

(** The body of the [for] loop at index [i].  [None] is the
    [perror("printf"); return 1] taken when [printf] fails. *)
Definition body (i : Z) (v : vars) (o : ostream range)
  : option (vars * ostream range) :=
  let width := wcwidth i in
  if (i =? 0) || negb (width =? previous_width v) || IS_BOUNDARY i then
    let flushed :=
      if negb (i =? 0)
      then printf (mkRange (previous_width v) (start v) (end_ v)) o
      else Some o in
    match flushed with
    | None => None
    | Some o' => Some (mkVars width i i, o')
    end
  else Some (mkVars (previous_width v) (start v) i, o).

(** [n] further iterations starting at index [i]; the result is the exit
    status together with the variables and the stream at that point. *)
Fixpoint loop (n : nat) (i : Z) (v : vars) (o : ostream range)
  : exit * vars * ostream range :=
  match n with
  | O => (Success, v, o)
  | S n' =>
      match body i v o with
      | None => (Failure "printf", v, o)
      | Some (v', o') => loop n' (i + 1) v' o'
      end
  end.

(** [for (wchar_t i = 0, start = 0, end = 0; i <= 0x10FFFF; i++)] with
    [previous_width = 0]; nothing follows the loop but [return 0]. *)
Definition main (o : ostream range) : exit * vars * ostream range :=
  loop (Z.to_nat (0x10FFFF + 1)) 0 (mkVars 0 0 0) o.

Definition exit_status (o : ostream range) : exit := fst (fst (main o)).
Definition emitted (o : ostream range) : list range := written (snd (main o)).
Definition stdout_text (o : ostream range) : string :=
  fold_right String.append EmptyString (map show_range (emitted o)).

End Scan.

(** *** Shapes of a list of printed records *)

(** The range being built, as it would be printed now. *)
Definition pending (v : vars) : range :=
  mkRange (previous_width v) (start v) (end_ v).

(** Every record of [rs] begins right after its predecessor ([r] for the
    head), is not empty, and repeats its predecessor's width only at a
    boundary code point. *)
Fixpoint follows (r : range) (rs : list range) : Prop :=
  match rs with
  | [] => True
  | r' :: rs' =>
      first r' = last r + 1 /\
      first r' <= last r' /\
      (width r' = width r -> IS_BOUNDARY (first r') = true) /\
      follows r' rs'
  end.

(** What a stretch of iterations that started with variables [v], printed
    [rs] and ended with variables [v'] looks like. *)
Definition stretch (v : vars) (rs : list range) (v' : vars) : Prop :=
  match rs with
  | [] => previous_width v' = previous_width v /\ start v' = start v
  | r :: rest =>
      width r = previous_width v /\
      first r = start v /\
      first r <= last r /\
      follows r (rest ++ [pending v'])
  end.

(** A classifier in the manner of [wcwidth(3)]: the null character takes
    no column, the control characters have no width, the ideographs from
    0x4E00 to 0x9FFF take two columns and everything else one. *)
Definition sample_wcwidth (c : Z) : Z :=
  if c =? 0 then 0
  else if (c <? 0x20) || ((0x7F <=? c) && (c <? 0xA0)) then -1
  else if (0x4E00 <=? c) && (c <=? 0x9FFF) then 2
  else 1.

(** Every code point of [r] has the width [r] records, and none but the
    first is a boundary code point. *)
Definition uniform (wcwidth : Z -> Z) (r : range) : Prop :=
  forall x, first r <= x <= last r ->
    wcwidth x = width r /\ (first r < x -> IS_BOUNDARY x = false).

(** [x] lies in one of the printed ranges. *)
Definition covered (rs : list range) (x : Z) : Prop :=
  exists r, In r rs /\ first r <= x <= last r.

End Compressor.

Module Harness.

(** ** test-data/wcswidths.c

    Bytes and wide characters are integers of [Z].  The functions of the
    C library that the program calls ([getline], [mbstowcs], [wcswidth],
    [wcwidth]) are rendered after their manual pages; the encoding and
    the classifier of the locale, [LINE_MAX] and [sizeof(wchar_t)] are
    left open.  The [int] in which [wcswidth] adds up widths cannot
    overflow for widths of at most 2 and an array of [LINE_MAX] elements,
    and the sum is taken in [Z]. *)

(** A run either goes on, or has stored or fetched an element outside the
    array [runes], after which C gives the program no meaning. *)
Inductive outcome (A : Type) : Type :=
  | Ran (a : A)
  | OutOfBounds.
Arguments Ran {A} _.
Arguments OutOfBounds {A}.

(** [(size_t) -1], with a 64-bit [size_t]. *)
Definition SIZE_MAX : Z := 2 ^ 64 - 1.

(** The multibyte encoding of the locale, as [mbrtowc(3)] sees it: fed one
    byte in a conversion state, it yields a wide character, asks for more
    bytes, or rejects the sequence. *)
Inductive mb_result (St : Type) : Type :=
  | Wide (c : Z)
  | More (st : St)
  | Illegal.
Arguments Wide {St} _.
Arguments More {St} _.
Arguments Illegal {St}.

Record codec : Type := mkCodec {
  mbstate_t : Type;
  mb_initial : mbstate_t;
  mbsinit : mbstate_t -> bool;
  mbrtowc : mbstate_t -> Z -> mb_result mbstate_t
}.

(** How a conversion stopped: at the terminating null, at the limit on the
    number of wide characters, or at an invalid sequence. *)
Inductive ending : Type :=
  | Terminated
  | Truncated
  | Invalid.

(** Standard input: the bytes it delivers, and whether reading fails
    ([ferror]) rather than reaching end of file once they are consumed. *)
Record istream : Type := mkIstream {
  content : list Z;
  broken : bool
}.

(** What the process is started with: [argc], whether the locale and the
    line buffer can be had, and the indeterminate initial content of the
    automatic array [runes]. *)
Record env : Type := mkEnv {
  argc : Z;
  have_locale : bool;
  have_memory : bool;
  stack : nat -> Z
}.

(** A start that gets past the checks made before the loop. *)
Definition started (e : env) : Prop :=
  argc e <= 1 /\ have_locale e = true /\ have_memory e = true.

(** The results of the successive calls of [getline] on a stream holding
    the bytes [s]: every line keeps its newline, the last one may lack it. *)
Fixpoint getlines (s : list Z) : list (list Z) :=
  match s with
  | [] => []
  | b :: s' =>
      if b =? 10 then [b] :: getlines s'
      else match getlines s' with
           | [] => [[b]]
           | l :: ls => (b :: l) :: ls
           end
  end.

Section Harness.

(** [LINE_MAX] of <limits.h> and [sizeof(wchar_t)]. *)
Variable LINE_MAX : Z.
Variable sizeof_wchar_t : Z.

(** [wcwidth(3)] and the multibyte encoding under the selected locale. *)
Variable wcwidth : Z -> Z.
Variable C : codec.

(** At the null byte that ends the string. *)
Definition at_null (st : mbstate_t C) : list Z * ending :=
  if mbsinit C st then ([], Terminated) else ([], Invalid).

(** The wide characters [mbstowcs] converts from the string [s] (its bytes
    up to the terminating null; a null byte inside [s] ends it early),
    when it may store at most [n] wide characters.  The terminating null
    wide character is not part of the list. *)
Fixpoint convert (st : mbstate_t C) (s : list Z) (n : nat)
  : list Z * ending :=
  match n with
  | O => ([], Truncated)
  | S n' =>
      match s with
      | [] => at_null st
      | b :: s' =>
          if b =? 0 then at_null st
          else match mbrtowc C st b with
               | Illegal => ([], Invalid)
               | More st' => convert st' s' n
               | Wide c =>
                   if c =? 0 then ([], Terminated)
                   else let (cs, e) := convert (mb_initial C) s' n' in
                        (c :: cs, e)
               end
      end
  end.

(** [mbstowcs(dest, s, n)]: the converted wide characters, and the null
    wide character when the string was converted to its end, are stored
    from [dest[0]] on; the value is their number without the null, or
    [(size_t) -1] for an invalid sequence. *)
Definition mbstowcs (dest : list Z) (s : list Z) (n : nat)
  : outcome (Z * list Z) :=
  let (cs, e) := convert (mb_initial C) s n in
  let stored := match e with Terminated => cs ++ [0] | _ => cs end in
  let count := match e with
               | Invalid => SIZE_MAX
               | _ => Z.of_nat (length cs)
               end in
  if (length stored <=? length dest)%nat
  then Ran (count, stored ++ skipn (length stored) dest)
  else OutOfBounds.

(** [wcswidth(s, n)]: the columns of at most [n] wide characters of [s],
    up to a null wide character; -1 as soon as one of them is not
    printable. *)
Fixpoint wcswidth_from (s : list Z) (n : Z) (result : Z) : outcome Z :=
  if n =? 0 then Ran result
  else match s with
       | [] => OutOfBounds
       | c :: s' =>
           if c =? 0 then Ran result
           else let now := wcwidth c in
                if now =? -1 then Ran (-1)
                else wcswidth_from s' (n - 1) (result + now)
       end.

Definition wcswidth (s : list Z) (n : Z) : outcome Z := wcswidth_from s n 0.

(** [sizeof(runes)], the limit handed to [mbstowcs]. *)
Definition sizeof_runes : Z := LINE_MAX * sizeof_wchar_t.

(** The body of the [while] loop for one line.  [Ran None] is the
    [return 1] taken when [printf] fails. *)
Definition body (line : list Z) (runes : list Z) (o : ostream Z)
  : outcome (option (list Z * ostream Z)) :=
  match mbstowcs runes line (Z.to_nat sizeof_runes) with
  | OutOfBounds => OutOfBounds
  | Ran (count, runes') =>
      let measured :=
        if negb (count =? SIZE_MAX)
        then wcswidth runes' ((count - 1) mod 2 ^ 64)
        else Ran (-1) in
      match measured with
      | OutOfBounds => OutOfBounds
      | Ran width =>
          match printf width o with
          | None => Ran None
          | Some o' => Ran (Some (runes', o'))
          end
      end
  end.

(** The [while] loop over the lines [getline] returns, then the check of
    [ferror(stdin)]. *)
Fixpoint loop (lines : list (list Z)) (failed : bool)
              (runes : list Z) (o : ostream Z)
  : outcome (exit * ostream Z) :=
  match lines with
  | [] => Ran (if failed then Failure "getline" else Success, o)
  | line :: rest =>
      match body line runes o with
      | OutOfBounds => OutOfBounds
      | Ran None => Ran (Failure "printf", o)
      | Ran (Some (runes', o')) => loop rest failed runes' o'
      end
  end.

Definition main (e : env) (stdin : istream) (stdout : ostream Z)
  : outcome (exit * ostream Z) :=
  if 1 <? argc e then Ran (Failure "Usage: ", stdout)
  else if negb (have_locale e) then Ran (Failure "setlocale failed", stdout)
  else if negb (have_memory e) then Ran (Failure "malloc", stdout)
  else loop (getlines (content stdin)) (broken stdin)
            (map (stack e) (seq 0 (Z.to_nat LINE_MAX))) stdout.

(** The text on standard output: one ["%i\n"] per printed width. *)
Definition show_line (w : Z) : string :=
  (show_int w ++ String (Ascii.ascii_of_nat 10) "")%string.

Definition stdout_text (o : ostream Z) : string :=
  fold_right String.append EmptyString (map show_line (written o)).

(** *** What a line is worth *)

(** The line as a sequence of code points, converted without any limit. *)
Definition decode (line : list Z) : list Z * ending :=
  convert (mb_initial C) line (S (length line)).

(** The total width of a sequence of code points: -1 if one of them has
    no width, their sum otherwise. *)
Definition total_width (cps : list Z) : Z :=
  if existsb (fun c => wcwidth c =? -1) cps then -1
  else fold_right Z.add 0 (map wcwidth cps).

(** The array fits in memory that [size_t] can measure. *)
Definition sane : Prop :=
  0 < LINE_MAX /\ 0 < sizeof_wchar_t /\ sizeof_runes <= SIZE_MAX.

(** The width printed for a line that was converted to [cs], ending [e]. *)
Definition line_width (cs : list Z) (e : ending) : Z :=
  match e with
  | Invalid => -1
  | _ => total_width (removelast cs)
  end.

(** The width a turn prints depends on the line and on the size of the
    array, not on what the array or the stream held before. *)
Definition body_is (line r : list Z) (o : ostream Z) (res : outcome Z)
  : Prop :=
  match res with
  | OutOfBounds => body line r o = OutOfBounds
  | Ran w =>
      exists r', length r' = length r /\
        body line r o =
        match printf w o with
        | None => Ran None
        | Some o' => Ran (Some (r', o'))
        end
  end.

End Harness.

(** Moving the start of a stream that never fails. *)
Definition shift (w : list Z) (res : outcome (exit * ostream Z))
  : outcome (exit * ostream Z) :=
  match res with
  | OutOfBounds => OutOfBounds
  | Ran (x, o) => Ran (x, mkOstream (w ++ written o) (room o))
  end.

(** *** The encoding of the C.UTF-8 locale

    The conversion of the C library under C.UTF-8: sequences of two to
    six bytes for the values up to 0x7FFFFFFF, of which the shortest
    form only is valid, and no surrogate. *)

Inductive utf8_state : Type :=
  | Utf8Start
  | Utf8Tail (need : nat) (acc : Z) (least : Z).

Definition utf8_step (st : utf8_state) (b : Z) : mb_result utf8_state :=
  match st with
  | Utf8Start =>
      if b <? 0x80 then Wide b
      else if (0xC2 <=? b) && (b <=? 0xDF)
      then More (Utf8Tail 0 (Z.land b 0x1F) 0x80)
      else if (0xE0 <=? b) && (b <=? 0xEF)
      then More (Utf8Tail 1 (Z.land b 0x0F) 0x800)
      else if (0xF0 <=? b) && (b <=? 0xF7)
      then More (Utf8Tail 2 (Z.land b 0x07) 0x10000)
      else if (0xF8 <=? b) && (b <=? 0xFB)
      then More (Utf8Tail 3 (Z.land b 0x03) 0x200000)
      else if (0xFC <=? b) && (b <=? 0xFD)
      then More (Utf8Tail 4 (Z.land b 0x01) 0x4000000)
      else Illegal
  | Utf8Tail need acc least =>
      if (0x80 <=? b) && (b <=? 0xBF) then
        let acc' := Z.lor (Z.shiftl acc 6) (Z.land b 0x3F) in
        match need with
        | O =>
            if (least <=? acc')
               && negb ((0xD800 <=? acc') && (acc' <=? 0xDFFF))
            then Wide acc' else Illegal
        | S need' => More (Utf8Tail need' acc' least)
        end
      else Illegal
  end.

Definition utf8 : codec :=
  mkCodec utf8_state Utf8Start
          (fun st => match st with Utf8Start => true | _ => false end)
          utf8_step.

(** A classifier in the manner of [wcwidth(3)] on ASCII: printable
    characters take one column, the null character none, and control
    characters (the newline among them) have no width. *)
Definition ascii_wcwidth (c : Z) : Z :=
  if c =? 0 then 0
  else if (0x20 <=? c) && (c <=? 0x7E) then 1
  else -1.

(** A start with no argument, the locale and the memory at hand, and
    some values left on the stack. *)
Definition plain_start : env :=
  mkEnv 1 true true (fun k => Z.of_nat k + 0x41).

End Harness.

(** ** What the harness answers for a line

    Two readings of a line that the statements about whole runs use: the
    number the loop prints for it, and whether it is too long for the
    array. *)

Module Lines.
Import Harness.

(** The width printed for [line]: that of its code points without the
    last one, or -1 when it cannot be converted. *)
Definition line_value (wcwidth : Z -> Z) (C : codec) (line : list Z) : Z :=
  let (cs, e) := decode C line in line_width wcwidth cs e.

(** The code points of [line], with the null that follows them when the
    line is converted to its end, are more than [LINE_MAX]. *)
Definition overlong (LINE_MAX : Z) (C : codec) (line : list Z) : bool :=
  let (cs, e) := decode C line in
  match e with
  | Terminated => (Z.to_nat LINE_MAX <=? length cs)%nat
  | _ => (Z.to_nat LINE_MAX <? length cs)%nat
  end.

End Lines.

(** * Properties of the output streams *)

Module StreamFacts.

Lemma printf_written {A} (x : A) o o1 :
  printf x o = Some o1 -> written o1 = written o ++ [x].
Proof.
  unfold printf. destruct (room o) as [[|k]|]; intros H; inversion H; auto.
Qed.

Lemma printf_good {A} (x : A) o :
  room o = None -> exists o1, printf x o = Some o1 /\ room o1 = None.
Proof.
  unfold printf. intros ->. eexists; split; reflexivity.
Qed.

End StreamFacts.

(** * Properties of the range compressor *)

Module CompressorFacts.
Import Compressor StreamFacts.

Lemma IS_BOUNDARY_cases (x : Z) :
  IS_BOUNDARY x = true <->
  x = 0x80 \/ x = 0x800 \/ x = 0x10000 \/ x = 0x10FFFF \/ x = 0xD800 \/
  x = 0xE000 \/ x = 0xF900 \/ x = 0xF0000 \/ x = 0xFFFFE \/
  x = 0x100000 \/ x = 0x10FFFE.
Proof.
  unfold IS_BOUNDARY.
  repeat rewrite orb_true_iff. repeat rewrite Z.eqb_eq. lia.
Qed.

Lemma IS_BOUNDARY_iff_boundary_set_aux (x : Z) :
  IS_BOUNDARY x = true <-> In x boundary_set.
Proof.
  rewrite IS_BOUNDARY_cases. unfold boundary_set. simpl.
  intuition lia.
Qed.

(** C4: [IS_BOUNDARY(x)] holds exactly when [x] is one of 0x80, 0x800,
    0x10000, 0x10FFFF, 0xD800, 0xE000, 0xF900, 0xF0000, 0xFFFFE, 0x100000
    and 0x10FFFE; 0xE000 satisfies two disjuncts of the macro, the one
    after the surrogates and the start of the Private Use Area. *)
Theorem IS_BOUNDARY_exactly_eleven (x : Z) :
  (IS_BOUNDARY x = true <->
   x = 0x80 \/ x = 0x800 \/ x = 0x10000 \/ x = 0x10FFFF \/ x = 0xD800 \/
   x = 0xE000 \/ x = 0xF900 \/ x = 0xF0000 \/ x = 0xFFFFE \/
   x = 0x100000 \/ x = 0x10FFFE) /\
  (IS_BOUNDARY x = true <-> In x boundary_set) /\
  (x - 1 =? 0xDFFF) = (x =? 0xE000).
Proof.
  split; [apply IS_BOUNDARY_cases|].
  split; [apply IS_BOUNDARY_iff_boundary_set_aux|].
  destruct (Z.eqb_spec (x - 1) 0xDFFF), (Z.eqb_spec x 0xE000); lia.
Qed.

Section ScanFacts.

Variable wcwidth : Z -> Z.

Ltac body_split :=
  unfold body;
  repeat match goal with
         | |- context [Z.eqb ?a ?b] => destruct (Z.eqb_spec a b)
         | |- context [IS_BOUNDARY ?a] => destruct (IS_BOUNDARY a) eqn:?
         end; simpl.

(** The two ways an iteration past the first one can go on. *)
Lemma scan_body_inv i v o v1 o1 :
  1 <= i ->
  body wcwidth i v o = Some (v1, o1) ->
  (v1 = mkVars (previous_width v) (start v) i /\ o1 = o /\
   IS_BOUNDARY i = false /\ wcwidth i = previous_width v) \/
  (v1 = mkVars (wcwidth i) i i /\ printf (pending v) o = Some o1 /\
   (wcwidth i = previous_width v -> IS_BOUNDARY i = true)).
Proof.
  intros Hi. unfold pending. body_split; intros H; try lia;
    try (destruct (printf _ o) eqn:Hp; [|discriminate]);
    inversion H; subst; auto; right; repeat split; auto; congruence.
Qed.

(** What [n] iterations from index [i] print and leave behind. *)
Lemma loop_stretch n : forall i v o,
  1 <= i -> end_ v = i - 1 -> start v <= end_ v ->
  exists rs,
    let '(x, v', o') := loop wcwidth n i v o in
    written o' = written o ++ rs /\
    stretch v rs v' /\
    start v' <= end_ v' /\
    (x = Success -> end_ v' = i + Z.of_nat n - 1) /\
    (x = Success -> forall b, i <= b < i + Z.of_nat n ->
       IS_BOUNDARY b = true -> In b (map first rs ++ [start v'])).
Proof.
  induction n as [|n IH]; intros i v o Hi He Hs.
  - exists []. simpl. rewrite app_nil_r. repeat split; auto; intros _; lia.
  - cbn [loop]. destruct (body wcwidth i v o) as [[v1 o1]|] eqn:Hb.
    + destruct (scan_body_inv _ _ _ _ _ Hi Hb)
        as [(-> & -> & Hnb & _)|(-> & Hp & Hw)].
      * destruct (IH (i + 1) (mkVars (previous_width v) (start v) i) o)
          as [rs IHrs]; simpl; try lia.
        exists rs. destruct (loop _ _ _ _ _) as [[x v'] o'].
        destruct IHrs as (Hwr & Hst & Hle & Hend & Hbd).
        split; [auto|]. split; [auto|]. split; [auto|]. split.
        -- intros Hx. rewrite (Hend Hx). lia.
        -- intros Hx b Hb' Hbb. apply (Hbd Hx); auto.
           assert (b <> i) by congruence. lia.
      * destruct (IH (i + 1) (mkVars (wcwidth i) i i) o1)
          as [rs IHrs]; simpl; try lia.
        exists (pending v :: rs). destruct (loop _ _ _ _ _) as [[x v'] o'].
        destruct IHrs as (Hwr & Hst & Hle & Hend & Hbd).
        rewrite (printf_written _ _ _ Hp), <- app_assoc in Hwr.
        split; [auto|]. split; [|split; [auto|split]].
        -- destruct rs as [|r rest]; simpl in *.
           ++ destruct Hst as [Hpw Hst]. rewrite Hst, Hpw.
              repeat split; auto; lia.
           ++ destruct Hst as (Hpw & Hf & Hfl & Hfo). rewrite Hpw, Hf.
              repeat split; auto; lia.
        -- intros Hx. rewrite (Hend Hx). lia.
        -- intros Hx b Hb' Hbb. simpl. right.
           destruct (Z.eq_dec b i) as [->|Hne].
           ++ destruct rs as [|r rest]; simpl in *.
              ** left. apply Hst.
              ** left. apply Hst.
           ++ apply (Hbd Hx); auto. lia.
    + exists []. rewrite app_nil_r. simpl.
      repeat split; auto; discriminate.
Qed.

(** On a stream that never fails the loop runs to its end. *)
Lemma loop_good n : forall i v o,
  room o = None ->
  fst (fst (loop wcwidth n i v o)) = Success /\
  room (snd (loop wcwidth n i v o)) = None.
Proof.
  induction n as [|n IH]; intros i v o Hr; simpl; auto.
  unfold body.
  destruct (_ || _ || _); [|apply IH; auto].
  destruct (negb (i =? 0)); [|apply IH; auto].
  destruct (printf_good (pending v) o Hr) as (o1 & Hp & Hr1).
  unfold pending in Hp. rewrite Hp. apply IH; auto.
Qed.

(** The records printed by [n] iterations, and the range left pending,
    are uniform when the pending range was so at the start. *)
Lemma loop_uniform n : forall i v o,
  1 <= i -> end_ v = i - 1 -> uniform wcwidth (pending v) ->
  exists rs,
    written (snd (loop wcwidth n i v o)) = written o ++ rs /\
    Forall (uniform wcwidth) rs /\
    uniform wcwidth (pending (snd (fst (loop wcwidth n i v o)))).
Proof.
  induction n as [|n IH]; intros i v o Hi He Hu.
  - exists []. simpl. rewrite app_nil_r. auto.
  - cbn [loop]. destruct (body wcwidth i v o) as [[v1 o1]|] eqn:Hb.
    + destruct (scan_body_inv _ _ _ _ _ Hi Hb)
        as [(-> & -> & Hnb & Hw)|(-> & Hp & _)].
      * assert (Hu1 : uniform wcwidth
                        (pending (mkVars (previous_width v) (start v) i))).
        { intros x Hx. cbn [pending first last width start end_
                              previous_width] in *.
          destruct (Z.eq_dec x i) as [->|Hne]; [auto|].
          apply Hu. cbn [pending first last]. lia. }
        apply (IH (i + 1) _ o); cbn [end_]; auto; lia.
      * assert (Hu1 : uniform wcwidth (pending (mkVars (wcwidth i) i i))).
        { intros x Hx. cbn [pending first last width start end_
                              previous_width] in *.
          assert (x = i) by lia. subst x. split; [auto|lia]. }
        destruct (IH (i + 1) (mkVars (wcwidth i) i i) o1)
          as (rs & Hwr & Hfa & Hpe); cbn [end_]; auto; try lia.
        exists (pending v :: rs).
        rewrite (printf_written _ _ _ Hp), <- app_assoc in Hwr.
        split; [exact Hwr|]. split; [constructor; auto|exact Hpe].
    + exists []. simpl. rewrite app_nil_r. auto.
Qed.

(** The first iteration prints nothing and opens the range at 0. *)
Lemma main_unfold o :
  main wcwidth o =
  loop wcwidth (Z.to_nat 0x10FFFF) 1 (mkVars (wcwidth 0) 0 0) o.
Proof.
  unfold main.
  assert (E : Z.to_nat (0x10FFFF + 1) = S (Z.to_nat 0x10FFFF)).
  { apply (Z2Nat.inj_succ 0x10FFFF). lia. }
  rewrite E. reflexivity.
Qed.

Lemma main_stretch o :
  exists rs,
    written (snd (main wcwidth o)) = written o ++ rs /\
    stretch (mkVars (wcwidth 0) 0 0) rs (snd (fst (main wcwidth o))) /\
    start (snd (fst (main wcwidth o))) <= end_ (snd (fst (main wcwidth o))) /\
    (fst (fst (main wcwidth o)) = Success ->
       end_ (snd (fst (main wcwidth o))) = 0x10FFFF) /\
    (fst (fst (main wcwidth o)) = Success ->
     forall b, 1 <= b <= 0x10FFFF -> IS_BOUNDARY b = true ->
       In b (map first rs ++ [start (snd (fst (main wcwidth o)))])).
Proof.
  rewrite main_unfold.
  destruct (loop_stretch (Z.to_nat 0x10FFFF) 1 (mkVars (wcwidth 0) 0 0) o)
    as [rs H]; cbn [start end_]; try lia.
  exists rs. destruct (loop _ _ _ _ _) as [[x v'] o'].
  rewrite Z2Nat.id in H by lia. cbn [fst snd].
  destruct H as (Hwr & Hst & Hle & Hend & Hbd).
  repeat split; auto.
  intros Hx b Hb. apply (Hbd Hx). lia.
Qed.

Lemma main_good :
  fst (fst (main wcwidth good_stream)) = Success.
Proof.
  unfold main. apply loop_good. reflexivity.
Qed.

End ScanFacts.

(** *** Consequences of [follows] for positions in the list *)

Lemma follows_app_l r rs p : follows r (rs ++ p) -> follows r rs.
Proof.
  revert r. induction rs as [|q rs IH]; intros r; simpl; auto.
  intros (H1 & H2 & H3 & H4). repeat split; auto.
Qed.

Lemma follows_adjacent rs : forall r k r1 r2,
  follows r rs ->
  nth_error (r :: rs) k = Some r1 ->
  nth_error (r :: rs) (S k) = Some r2 ->
  first r2 = last r1 + 1 /\ first r2 <= last r2 /\
  (width r2 = width r1 -> IS_BOUNDARY (first r2) = true).
Proof.
  induction rs as [|q rs IH]; intros r k r1 r2 Hf H1 H2.
  - destruct k; simpl in H2; discriminate.
  - destruct Hf as (Ha & Hb & Hc & Hd). destruct k as [|k].
    + simpl in H1, H2. inversion H1; inversion H2; subst. auto.
    + apply (IH q k r1 r2 Hd); auto.
Qed.

Lemma follows_later rs : forall r q,
  follows r rs -> first r <= last r -> In q rs ->
  last r < first q /\ first q <= last q.
Proof.
  induction rs as [|p rs IH]; intros r q Hf Hr Hin; [destruct Hin|].
  destruct Hf as (Ha & Hb & Hc & Hd). destruct Hin as [->|Hin].
  - lia.
  - destruct (IH p q Hd Hb Hin). lia.
Qed.

Lemma follows_ordered rs : forall r j k r1 r2,
  follows r rs -> first r <= last r -> (j < k)%nat ->
  nth_error (r :: rs) j = Some r1 ->
  nth_error (r :: rs) k = Some r2 ->
  last r1 < first r2.
Proof.
  induction rs as [|p rs IH]; intros r j k r1 r2 Hf Hr Hjk H1 H2.
  - destruct k as [|k]; [lia|]. destruct k; discriminate.
  - destruct k as [|k]; [lia|]. destruct j as [|j].
    + simpl in H1. inversion H1; subst.
      change (nth_error (p :: rs) k = Some r2) in H2.
      apply nth_error_In in H2.
      apply (follows_later _ _ _ Hf Hr H2).
    + destruct Hf as (Ha & Hb & Hc & Hd).
      apply (IH p j k r1 r2 Hd Hb); auto. lia.
Qed.

(** A chain closed by [p] covers exactly the code points before [p]. *)
Lemma follows_covered rs : forall r p x,
  follows r (rs ++ [p]) -> first r <= last r ->
  (covered (r :: rs) x <-> first r <= x < first p).
Proof.
  induction rs as [|q rs IH]; intros r p x Hf Hr.
  - destruct Hf as (Ha & _). unfold covered. split.
    + intros (r0 & [<-|[]] & Hx). lia.
    + intros Hx. exists r. split; [left; auto|lia].
  - destruct Hf as (Ha & Hb & Hc & Hd).
    specialize (IH q p x Hd Hb). unfold covered in *. split.
    + intros (r0 & [<-|Hin] & Hx).
      * assert (last q < first p).
        { destruct (follows_later _ _ p Hd Hb) as [? _]; [|lia].
          apply in_or_app. right. left. auto. }
        lia.
      * assert (first q <= x < first p) by (apply IH; eauto). lia.
    + intros Hx. destruct (Z_le_gt_dec x (last r)).
      * exists r. split; [left; auto|lia].
      * destruct IH as [_ IH]. destruct IH as (r0 & Hin & Hx0); [lia|].
        exists r0. split; [right; auto|auto].
Qed.

Section RunFacts.

Variable wcwidth : Z -> Z.

(** Whatever happens to the stream, what was printed is a chain. *)
Lemma emitted_chain rm :
  match emitted wcwidth (mkOstream [] rm) with
  | [] => True
  | r :: rest => first r = 0 /\ first r <= last r /\ follows r rest
  end.
Proof.
  unfold emitted.
  generalize (main_stretch wcwidth (mkOstream [] rm)).
  generalize (main wcwidth (mkOstream [] rm)).
  intros m (rs & Hwr & Hst & _).
  cbn [written app] in Hwr. rewrite Hwr.
  destruct rs as [|r rest]; auto.
  destruct Hst as (_ & Hf & Hfl & Hfo). cbn [start] in Hf.
  repeat split; auto. apply (follows_app_l _ _ _ Hfo).
Qed.

(** On a stream that never fails: the scan ends with the range opened at
    0x10FFFF still pending, and everything before it printed. *)
Lemma emitted_good_shape :
  exists r rest pw,
    emitted wcwidth good_stream = r :: rest /\
    first r = 0 /\ first r <= last r /\
    follows r (rest ++ [mkRange pw 0x10FFFF 0x10FFFF]) /\
    (forall b, 1 <= b < 0x10FFFF -> IS_BOUNDARY b = true ->
       In b (map first (r :: rest))).
Proof.
  unfold emitted.
  generalize (main_stretch wcwidth good_stream) (main_good wcwidth).
  generalize (main wcwidth good_stream).
  intros [[x v'] o'] (rs & Hwr & Hst & Hle & Hend & Hbd) Hx.
  cbn [fst snd] in *.
  specialize (Hend Hx). specialize (Hbd Hx).
  cbn [written good_stream app] in Hwr. rewrite Hwr.
  destruct rs as [|r rest].
  - exfalso. destruct Hst as [_ Hst]. cbn [start] in Hst.
    destruct (Hbd 0x80) as [E|[]]; [lia|reflexivity|]. lia.
  - destruct Hst as (_ & Hf & Hfl & Hfo). cbn [start] in Hf.
    assert (Hlast : start v' = 0x10FFFF).
    { specialize (Hbd 0x10FFFF).
      apply in_app_or in Hbd; [|lia|reflexivity].
      destruct Hbd as [Hin|[E|[]]]; [|auto].
      exfalso. apply in_map_iff in Hin. destruct Hin as (q & Hq & Hin).
      assert (Hqq : first q <= last q).
      { destruct Hin as [<-|Hin]; [auto|].
        apply (follows_later _ _ q Hfo Hfl). apply in_or_app; auto. }
      assert (Hc : covered (r :: rest) (first q))
        by (exists q; split; [auto|lia]).
      apply (follows_covered _ _ _ _ Hfo Hfl) in Hc.
      cbn [first pending] in Hc. lia. }
    exists r, rest, (previous_width v').
    replace (mkRange (previous_width v') 0x10FFFF 0x10FFFF)
      with (pending v') by (unfold pending; rewrite Hlast, Hend; auto).
    repeat split; auto.
    intros b Hb Hbb. specialize (Hbd b).
    apply in_app_or in Hbd; [|lia|auto].
    destruct Hbd as [Hin|[E|[]]]; [auto|lia].
Qed.

Lemma emitted_nonempty rm r :
  In r (emitted wcwidth (mkOstream [] rm)) -> first r <= last r.
Proof.
  generalize (emitted_chain rm).
  destruct (emitted wcwidth (mkOstream [] rm)) as [|r0 rest]; [intros _ []|].
  intros (_ & H0 & Hf) [<-|Hin]; auto.
  apply (follows_later _ _ _ Hf H0 Hin).
Qed.

Lemma emitted_good_covered x :
  covered (emitted wcwidth good_stream) x <-> 0 <= x < 0x10FFFF.
Proof.
  destruct emitted_good_shape as (r & rest & pw & -> & H0 & Hr & Hf & _).
  rewrite (follows_covered _ _ _ x Hf Hr), H0. reflexivity.
Qed.

End RunFacts.

(** C9: the printed records come in strictly increasing order of [first],
    none is empty ([first <= last]), each begins one past the end of the
    record printed before it, and so no two of them overlap.  This holds
    for whatever was printed, also when a write fails on the way. *)
Theorem emitted_ranges_ascending_adjacent_disjoint
  (wcwidth : Z -> Z) (rm : option nat) :
  let out := emitted wcwidth (mkOstream [] rm) in
  (forall j k r1 r2, (j < k)%nat ->
     nth_error out j = Some r1 -> nth_error out k = Some r2 ->
     first r1 < first r2) /\
  (forall r, In r out -> first r <= last r) /\
  (forall k r1 r2,
     nth_error out k = Some r1 -> nth_error out (S k) = Some r2 ->
     first r2 = last r1 + 1) /\
  (forall j k r1 r2, (j < k)%nat ->
     nth_error out j = Some r1 -> nth_error out k = Some r2 ->
     last r1 < first r2).
Proof.
  intros out.
  assert (Hne : forall r, In r out -> first r <= last r)
    by (intros r; apply emitted_nonempty).
  assert (Hord : forall j k r1 r2, (j < k)%nat ->
            nth_error out j = Some r1 -> nth_error out k = Some r2 ->
            last r1 < first r2).
  { generalize (emitted_chain wcwidth rm). fold out.
    destruct out as [|r0 rest].
    - intros _ j k r1 r2 _ H. destruct j; discriminate.
    - intros (_ & H0 & Hf) j k r1 r2 Hjk H1 H2.
      apply (follows_ordered _ _ _ _ _ _ Hf H0 Hjk H1 H2). }
  repeat split; auto.
  - intros j k r1 r2 Hjk H1 H2.
    specialize (Hord j k r1 r2 Hjk H1 H2).
    specialize (Hne r1 (nth_error_In _ _ H1)). lia.
  - generalize (emitted_chain wcwidth rm). fold out.
    destruct out as [|r0 rest].
    + intros _ k r1 r2 H. destruct k; discriminate.
    + intros (_ & H0 & Hf) k r1 r2 H1 H2.
      apply (follows_adjacent _ _ _ _ _ Hf H1 H2).
Qed.

(** C3: two records printed one after the other carry the same width only
    when the second begins at a mandatory boundary code point. *)
Theorem equal_width_neighbours_meet_at_boundary
  (wcwidth : Z -> Z) (rm : option nat) (k : nat) (r1 r2 : range) :
  nth_error (emitted wcwidth (mkOstream [] rm)) k = Some r1 ->
  nth_error (emitted wcwidth (mkOstream [] rm)) (S k) = Some r2 ->
  width r1 = width r2 ->
  IS_BOUNDARY (first r2) = true /\ In (first r2) boundary_set.
Proof.
  generalize (emitted_chain wcwidth rm).
  destruct (emitted wcwidth (mkOstream [] rm)) as [|r0 rest].
  - intros _ H. destruct k; discriminate.
  - intros (_ & H0 & Hf) H1 H2 Hw.
    destruct (follows_adjacent _ _ _ _ _ Hf H1 H2) as (_ & _ & Hb).
    assert (IS_BOUNDARY (first r2) = true) by (apply Hb; congruence).
    split; auto. apply IS_BOUNDARY_iff_boundary_set_aux; auto.
Qed.

(** C1: when the scan has run to its end on a stream that never fails, the
    printed ranges cover the code points 0 to 0x10FFFE and nothing else:
    the range opened at 0x10FFFF is still pending at [return 0] and is
    never printed, so the last code point lies in no printed range. *)
Theorem last_code_point_left_uncovered (wcwidth : Z -> Z) :
  exit_status wcwidth good_stream = Success /\
  (forall x, covered (emitted wcwidth good_stream) x <-> 0 <= x <= 0x10FFFE) /\
  ~ covered (emitted wcwidth good_stream) 0x10FFFF.
Proof.
  split; [apply main_good|]. split.
  - intros x. rewrite emitted_good_covered. lia.
  - rewrite emitted_good_covered. lia.
Qed.

(** C2: of the eleven boundary code points, the ten below 0x10FFFF each
    begin a printed range, and no printed range begins at 0x10FFFF. *)
Theorem boundary_starts_except_last_code_point (wcwidth : Z -> Z) :
  (forall b, In b boundary_set -> b <> 0x10FFFF ->
     exists r, In r (emitted wcwidth good_stream) /\ first r = b) /\
  ~ (exists r, In r (emitted wcwidth good_stream) /\ first r = 0x10FFFF).
Proof.
  split.
  - intros b Hb Hne.
    destruct (emitted_good_shape wcwidth)
      as (r & rest & pw & -> & _ & _ & _ & Hbd).
    assert (Hin : In b (map first (r :: rest))).
    { apply Hbd; [|apply IS_BOUNDARY_iff_boundary_set_aux; auto].
      unfold boundary_set in Hb. simpl in Hb. lia. }
    apply in_map_iff in Hin. destruct Hin as (q & Hq & Hin). eauto.
  - intros (r & Hin & Hr).
    assert (Hc : covered (emitted wcwidth good_stream) 0x10FFFF).
    { exists r. split; auto.
      pose proof (emitted_nonempty wcwidth None r Hin). lia. }
    apply emitted_good_covered in Hc. lia.
Qed.

(** X1: the invariant of the data model: within a printed record every
    code point has the recorded width, and no boundary code point lies
    past its first one.  With C3 this makes the printed list minimal: no two
    neighbours could be merged into one such record. *)
Theorem emitted_ranges_uniform
  (wcwidth : Z -> Z) (rm : option nat) (r : range) :
  In r (emitted wcwidth (mkOstream [] rm)) -> uniform wcwidth r.
Proof.
  unfold emitted. rewrite main_unfold.
  assert (Hu : uniform wcwidth (pending (mkVars (wcwidth 0) 0 0))).
  { intros x Hx. cbn [pending first last width start end_
                        previous_width] in *.
    assert (x = 0) by lia. subst x. split; [auto|lia]. }
  destruct (loop_uniform wcwidth (Z.to_nat 0x10FFFF) 1
              (mkVars (wcwidth 0) 0 0) (mkOstream [] rm))
    as (rs & Hwr & Hfa & _); cbn [end_]; auto; try lia.
  rewrite Hwr. cbn [written app]. intros Hin.
  rewrite Forall_forall in Hfa. auto.
Qed.

(** The whole output for the classifier that gives every code point one
    column: the records split at the boundaries only, and the last one
    printed is the single code point 0x10FFFE. *)
Example emitted_for_constant_width :
  emitted (fun _ => 1) good_stream =
  [mkRange 1 0 0x7F; mkRange 1 0x80 0x7FF; mkRange 1 0x800 0xD7FF;
   mkRange 1 0xD800 0xDFFF; mkRange 1 0xE000 0xF8FF;
   mkRange 1 0xF900 0xFFFF; mkRange 1 0x10000 0xEFFFF;
   mkRange 1 0xF0000 0xFFFFD; mkRange 1 0xFFFFE 0xFFFFF;
   mkRange 1 0x100000 0x10FFFD; mkRange 1 0x10FFFE 0x10FFFE].
Proof. vm_compute. reflexivity. Qed.

(** A record as it is printed. *)
Example show_range_sample :
  show_range (mkRange (-1) 0x80 0x9F) =
  ("-1 128 159" ++ String (Ascii.ascii_of_nat 10) "")%string.
Proof. reflexivity. Qed.

(** The first records for [sample_wcwidth] on a stream that takes five
    writes: the third begins one past the end of the second. *)
Lemma emitted_ranges_ascending_adjacent_disjoint_witness :
  nth_error (emitted sample_wcwidth (mkOstream [] (Some 5%nat))) 1
    = Some (mkRange (-1) 1 31) /\
  nth_error (emitted sample_wcwidth (mkOstream [] (Some 5%nat))) 2
    = Some (mkRange 1 32 126) /\
  first (mkRange 1 32 126) = last (mkRange (-1) 1 31) + 1.
Proof.
  split; [vm_compute; reflexivity|]. split; [vm_compute; reflexivity|].
  destruct (emitted_ranges_ascending_adjacent_disjoint sample_wcwidth
              (Some 5%nat)) as (_ & _ & Hadj & _).
  apply (Hadj 1%nat); vm_compute; reflexivity.
Defined.

(** The fourth and fifth records for [sample_wcwidth], both of width -1,
    meet at the boundary 0x80. *)
Lemma equal_width_neighbours_meet_at_boundary_witness :
  nth_error (emitted sample_wcwidth (mkOstream [] (Some 5%nat))) 3
    = Some (mkRange (-1) 0x7F 0x7F) /\
  nth_error (emitted sample_wcwidth (mkOstream [] (Some 5%nat))) 4
    = Some (mkRange (-1) 0x80 0x9F) /\
  IS_BOUNDARY 0x80 = true /\ In 0x80 boundary_set.
Proof.
  split; [vm_compute; reflexivity|]. split; [vm_compute; reflexivity|].
  apply (equal_width_neighbours_meet_at_boundary sample_wcwidth
           (Some 5%nat) 3 (mkRange (-1) 0x7F 0x7F) (mkRange (-1) 0x80 0x9F)).
  - vm_compute; reflexivity.
  - vm_compute; reflexivity.
  - reflexivity.
Defined.

End CompressorFacts.

(** * Properties of the width harness *)

Module HarnessFacts.
Import Harness StreamFacts.

Lemma getlines_app (f1 f2 : list Z) :
  f1 = [] \/ List.last f1 0 = 10 ->
  getlines (f1 ++ f2) = getlines f1 ++ getlines f2.
Proof.
  induction f1 as [|b f1 IH]; intros H; [reflexivity|].
  destruct H as [H|H]; [discriminate|].
  destruct f1 as [|b' f1].
  - simpl in H. subst b. reflexivity.
  - assert (IH' : getlines ((b' :: f1) ++ f2)
                  = getlines (b' :: f1) ++ getlines f2)
      by (apply IH; right; exact H).
    change ((b :: b' :: f1) ++ f2) with (b :: ((b' :: f1) ++ f2)).
    cbn [getlines] in *. destruct (b =? 10).
    + rewrite IH'. reflexivity.
    + rewrite IH'.
      destruct (if b' =? 10 then _ else _) as [|l ls] eqn:E; [|reflexivity].
      exfalso. destruct (b' =? 10); [discriminate|].
      destruct (getlines f1); discriminate.
Qed.

Section ConvertFacts.

Variable C : codec.

Ltac convert_cases H :=
  unfold at_null in H;
  match type of H with
  | context [Z.eqb ?b 0] =>
      destruct (Z.eqb_spec b 0); convert_cases H
  | context [mbsinit C ?st] =>
      destruct (mbsinit C st); convert_cases H
  | context [mbrtowc C ?st ?b] =>
      let R := fresh "R" in
      destruct (mbrtowc C st b) eqn:R; convert_cases H
  | _ => idtac
  end.

(** Converted code points are never null. *)
Lemma convert_nonzero s : forall st n cs e,
  convert C st s n = (cs, e) -> Forall (fun c => c <> 0) cs.
Proof.
  induction s as [|b s IH]; intros st n cs e H; destruct n as [|n];
    cbn [convert] in H.
  - inversion H; constructor.
  - unfold at_null in H. destruct (mbsinit C st); inversion H; constructor.
  - inversion H; constructor.
  - convert_cases H; try (inversion H; constructor; fail).
    + destruct (convert C (mb_initial C) s n) as [cs' e'] eqn:E.
      inversion H; subst. constructor; auto. eapply IH; eauto.
    + eapply IH; eauto.
Qed.

(** Every code point takes at least one byte, and at most [n] of them
    are converted; the limit is what stopped a truncated conversion. *)
Lemma convert_length s : forall st n cs e,
  convert C st s n = (cs, e) ->
  (length cs <= length s)%nat /\ (length cs <= n)%nat /\
  (e = Truncated -> length cs = n).
Proof.
  induction s as [|b s IH]; intros st n cs e H; destruct n as [|n];
    cbn [convert] in H.
  - inversion H; simpl; auto.
  - unfold at_null in H. destruct (mbsinit C st); inversion H; simpl;
      repeat split; auto with arith; discriminate.
  - inversion H; simpl; auto with arith.
  - convert_cases H;
      try (inversion H; simpl; repeat split; auto with arith;
           discriminate).
    + destruct (convert C (mb_initial C) s n) as [cs' e'] eqn:E.
      inversion H; subst. destruct (IH _ _ _ _ E) as (H1 & H2 & H3).
      simpl. repeat split; auto with arith.
    + destruct (IH _ _ _ _ H) as (H1 & H2 & H3). simpl.
      repeat split; auto with arith.
Qed.

(** A conversion that did not stop at the limit gives the same result
    under any limit that leaves room for what it converted. *)
Lemma convert_enough s : forall st n m cs e,
  convert C st s n = (cs, e) -> e <> Truncated ->
  (length cs < m)%nat -> convert C st s m = (cs, e).
Proof.
  induction s as [|b s IH]; intros st n m cs e H He Hm;
    destruct n as [|n]; cbn [convert] in H;
    try (inversion H; subst; congruence);
    destruct m as [|m]; try lia; cbn [convert]; unfold at_null in *; auto.
  convert_cases H; auto.
  - destruct (convert C (mb_initial C) s n) as [cs' e'] eqn:E.
    inversion H; subst. simpl in Hm.
    rewrite (IH _ _ m _ _ E); auto. lia.
  - eapply IH; eauto.
Qed.

Lemma decode_not_truncated line cs e :
  decode C line = (cs, e) -> e <> Truncated.
Proof.
  unfold decode. intros H ->.
  destruct (convert_length _ _ _ _ _ H) as (H1 & _ & H3).
  specialize (H3 eq_refl). lia.
Qed.

Lemma decode_convert line cs e m :
  decode C line = (cs, e) -> (length cs < m)%nat ->
  convert C (mb_initial C) line m = (cs, e).
Proof.
  intros H Hm. unfold decode in H.
  eapply convert_enough; eauto. eapply decode_not_truncated; eauto.
Qed.

End ConvertFacts.

Section RunFacts.

Variable LINE_MAX : Z.
Variable sizeof_wchar_t : Z.
Variable wcwidth : Z -> Z.
Variable C : codec.

Local Abbreviation body := (body LINE_MAX sizeof_wchar_t wcwidth C).
Local Abbreviation loop := (loop LINE_MAX sizeof_wchar_t wcwidth C).
Local Abbreviation limit := (Z.to_nat (sizeof_runes LINE_MAX sizeof_wchar_t)).
Local Abbreviation sane := (sane LINE_MAX sizeof_wchar_t).
Local Abbreviation line_width := (line_width wcwidth).
Local Abbreviation body_is := (body_is LINE_MAX sizeof_wchar_t wcwidth C).

Lemma size_t_modulus : 2 ^ 64 = SIZE_MAX + 1.
Proof. reflexivity. Qed.

Lemma wcswidth_at_null tail n acc :
  wcswidth_from wcwidth (0 :: tail) n acc = Ran acc.
Proof.
  cbn [wcswidth_from]. destruct (n =? 0); reflexivity.
Qed.

(** Over code points that are not null, [wcswidth] is [total_width]. *)
Lemma wcswidth_prefix pre : forall tail acc,
  Forall (fun c => c <> 0) pre ->
  wcswidth_from wcwidth (pre ++ tail) (Z.of_nat (length pre)) acc =
  Ran (if existsb (fun c => wcwidth c =? -1) pre then -1
       else acc + fold_right Z.add 0 (map wcwidth pre)).
Proof.
  induction pre as [|c pre IH]; intros tail acc Hnz.
  - destruct tail; simpl; rewrite Z.add_0_r; reflexivity.
  - inversion Hnz as [|? ? Hc Hpre]; subst.
    cbn [app length wcswidth_from existsb map fold_right].
    destruct (Z.eqb_spec (Z.of_nat (S (length pre))) 0); [lia|].
    destruct (Z.eqb_spec c 0); [contradiction|].
    destruct (wcwidth c =? -1); [reflexivity|]. cbn [orb].
    replace (Z.of_nat (S (length pre)) - 1) with (Z.of_nat (length pre))
      by lia.
    rewrite IH by auto. rewrite Z.add_assoc. reflexivity.
Qed.

(** What lies behind the stored characters is not looked at when they
    hold a null, or when no more than their number is asked for. *)
Lemma wcswidth_indep stored : forall t1 t2 n acc,
  In 0 stored \/ 0 <= n <= Z.of_nat (length stored) ->
  wcswidth_from wcwidth (stored ++ t1) n acc =
  wcswidth_from wcwidth (stored ++ t2) n acc.
Proof.
  induction stored as [|c stored IH]; intros t1 t2 n acc H.
  - assert (n = 0) by (destruct H as [[]|H]; simpl in H; lia). subst n.
    destruct t1, t2; reflexivity.
  - cbn [app wcswidth_from].
    destruct (Z.eqb_spec n 0); [reflexivity|].
    destruct (Z.eqb_spec c 0); [reflexivity|].
    destruct (wcwidth c =? -1); [reflexivity|].
    apply IH. destruct H as [[H|H]|H]; [congruence|auto|].
    right. cbn [length] in H. lia.
Qed.

Lemma stored_length (stored r : list Z) :
  (length stored <= length r)%nat ->
  length (stored ++ skipn (length stored) r) = length r.
Proof.
  intros H. rewrite length_app, length_skipn. lia.
Qed.

(** One turn of the loop on a line that, with its terminating null, fits
    the array. *)
Lemma body_fits line cs e r o :
  sane -> length r = Z.to_nat LINE_MAX ->
  decode C line = (cs, e) -> (length cs < length r)%nat ->
  exists r', length r' = length r /\
    body line r o =
    match printf (line_width cs e) o with
    | None => Ran None
    | Some o' => Ran (Some (r', o'))
    end.
Proof.
  intros (HL & Hs & Hmax) Hr Hd Hfit.
  unfold sizeof_runes in Hmax.
  assert (Hlim : (length r <= limit)%nat)
    by (unfold sizeof_runes; rewrite Hr; nia).
  pose proof (decode_not_truncated _ _ _ _ Hd) as Hnt.
  pose proof (convert_nonzero _ _ _ _ _ _ Hd) as Hnz.
  assert (Hc : convert C (mb_initial C) line limit = (cs, e))
    by (apply decode_convert; auto; lia).
  unfold Harness.body, mbstowcs. rewrite Hc.
  assert (Hcount : Z.of_nat (length cs) < SIZE_MAX) by nia.
  destruct e; [|congruence|].
  - set (stored := cs ++ [0]).
    assert (Hst : (length stored <= length r)%nat)
      by (unfold stored; rewrite length_app; simpl; lia).
    apply Nat.leb_le in Hst as Hst'. rewrite Hst'.
    exists (stored ++ skipn (length stored) r).
    split; [apply stored_length; auto|].
    destruct (Z.eqb_spec (Z.of_nat (length cs)) SIZE_MAX); [lia|].
    cbn [negb]. unfold line_width, wcswidth.
    destruct cs as [|c pre _] using rev_ind.
    + unfold stored. cbn [app length Z.of_nat].
      rewrite wcswidth_at_null. reflexivity.
    + rewrite removelast_last. unfold stored.
      assert (Hn : (Z.of_nat (length (pre ++ [c])) - 1) mod 2 ^ 64
                   = Z.of_nat (length pre)).
      { rewrite length_app in *. cbn [length] in *.
        rewrite Z.mod_small; rewrite ?size_t_modulus; lia. }
      rewrite Hn. repeat rewrite <- app_assoc.
      rewrite wcswidth_prefix
        by (apply Forall_app in Hnz; apply Hnz).
      unfold total_width. reflexivity.
  - assert (Hst : (length cs <= length r)%nat) by lia.
    apply Nat.leb_le in Hst as Hst'. rewrite Hst'.
    exists (cs ++ skipn (length cs) r).
    split; [apply stored_length; auto|].
    rewrite Z.eqb_refl. reflexivity.
Qed.

(** A line converted to its end whose code points, with the null, need
    more than the array holds, while the limit handed to [mbstowcs]
    allows them. *)
Lemma body_overrun line cs r o :
  decode C line = (cs, Terminated) ->
  (length r <= length cs)%nat -> (length cs < limit)%nat ->
  body line r o = OutOfBounds.
Proof.
  intros Hd Hcap Hlim.
  unfold Harness.body, mbstowcs.
  rewrite (decode_convert _ _ _ _ _ Hd Hlim).
  replace (length (cs ++ [0%Z]) <=? length r)%nat with false; auto.
  symmetry. apply Nat.leb_gt. rewrite length_app. simpl. lia.
Qed.

(** How a turn of the loop can end. *)
Lemma turn_inv line r o res :
  body line r o = Ran res ->
  exists w,
    match printf w o with
    | None => res = None
    | Some o' => exists r', res = Some (r', o') /\ length r' = length r
    end.
Proof.
  unfold Harness.body, mbstowcs.
  destruct (convert C (mb_initial C) line limit) as [cs e].
  set (stored := match e with Terminated => cs ++ [0] | _ => cs end).
  destruct (Nat.leb_spec (length stored) (length r)) as [Hfit|Hfit];
    [|discriminate].
  destruct (if negb _ then _ else _) as [w|]; [|discriminate].
  intros Hb. exists w. destruct (printf w o) as [o'|].
  - inversion Hb; subst. eexists; split; eauto. apply stored_length; auto.
  - inversion Hb; auto.
Qed.

Lemma body_agree line r1 r2 o1 o2 :
  sane -> length r1 = length r2 ->
  exists res, body_is line r1 o1 res /\ body_is line r2 o2 res.
Proof.
  intros (HL & Hs & Hmax) Hlen.
  unfold body_is, Harness.body, mbstowcs.
  destruct (convert C (mb_initial C) line limit) as [cs e] eqn:Hc.
  set (stored := match e with Terminated => cs ++ [0] | _ => cs end).
  set (count := match e with
                | Invalid => SIZE_MAX
                | _ => Z.of_nat (length cs)
                end).
  rewrite <- Hlen.
  destruct (Nat.leb_spec (length stored) (length r1)) as [Hfit|Hfit];
    [|exists OutOfBounds; auto].
  assert (E : wcswidth wcwidth (stored ++ skipn (length stored) r1)
                ((count - 1) mod 2 ^ 64) =
              wcswidth wcwidth (stored ++ skipn (length stored) r2)
                ((count - 1) mod 2 ^ 64) \/ count = SIZE_MAX).
  { destruct e.
    - left. apply wcswidth_indep. left. unfold stored.
      apply in_or_app. right. left. reflexivity.
    - destruct (convert_length _ _ _ _ _ _ Hc) as (_ & _ & Ht).
      specialize (Ht eq_refl). unfold sizeof_runes in *.
      destruct (Z.eq_dec count SIZE_MAX) as [|Hne]; [auto|left].
      apply wcswidth_indep. right. unfold count, stored in *.
      rewrite Ht in *. rewrite Z.mod_small; rewrite ?size_t_modulus; nia.
    - right. reflexivity. }
  destruct (Z.eqb_spec count SIZE_MAX) as [Hcm|Hcm]; cbn [negb].
  - exists (Ran (-1)).
    split; (eexists; split; [|reflexivity]); rewrite stored_length; lia.
  - destruct E as [E|E]; [|contradiction]. rewrite <- E.
    destruct (wcswidth wcwidth _ _) as [w|]; [|exists OutOfBounds; auto].
    exists (Ran w).
    split; (eexists; split; [|reflexivity]); rewrite stored_length; lia.
Qed.

Lemma loop_shift lines : forall failed r1 r2 w w2,
  sane -> length r1 = length r2 ->
  loop lines failed r1 (mkOstream (w ++ w2) None) =
  shift w (loop lines failed r2 (mkOstream w2 None)).
Proof.
  induction lines as [|line lines IH]; intros failed r1 r2 w w2 Hs Hlen.
  - reflexivity.
  - cbn [Harness.loop].
    destruct (body_agree line r1 r2 (mkOstream (w ++ w2) None)
                (mkOstream w2 None) Hs Hlen) as (res & H1 & H2).
    destruct res as [wd|]; cbn [body_is] in H1, H2.
    + destruct H1 as (r1' & Hl1 & ->). destruct H2 as (r2' & Hl2 & ->).
      cbn [printf room written]. rewrite <- app_assoc.
      apply IH; auto. congruence.
    + rewrite H1, H2. reflexivity.
Qed.

Lemma loop_room lines : forall failed r o x o',
  loop lines failed r o = Ran (x, o') -> room o = None -> room o' = None.
Proof.
  induction lines as [|line lines IH]; intros failed r o x o' H Hr.
  - inversion H; subst; auto.
  - cbn [Harness.loop] in H.
    destruct (body line r o) as [res|] eqn:Hb; [|discriminate].
    destruct (turn_inv _ _ _ _ Hb) as (w & Hw).
    destruct (printf_good w o Hr) as (o1 & Hp & Hr1). rewrite Hp in Hw.
    destruct Hw as (r' & -> & _). eapply IH; eauto.
Qed.

(** Lines read after a first batch that went through are handled from
    the state the batch left. *)
Lemma loop_app l1 : forall l2 failed r o o1,
  loop l1 false r o = Ran (Success, o1) ->
  exists r1, length r1 = length r /\
    loop (l1 ++ l2) failed r o = loop l2 failed r1 o1.
Proof.
  induction l1 as [|line l1 IH]; intros l2 failed r o o1 H.
  - inversion H; subst. exists r. auto.
  - cbn [Harness.loop app] in *.
    destruct (body line r o) as [res|] eqn:Hb; [|discriminate].
    destruct (turn_inv _ _ _ _ Hb) as (w & Hw).
    destruct (printf w o) as [o'|].
    + destruct Hw as (r' & -> & Hl).
      destruct (IH l2 failed r' o' o1 H) as (r1 & Hl1 & E).
      exists r1. split; [congruence|auto].
    + subst res. discriminate.
Qed.

(** The loop stops early only when a write fails; otherwise it has
    printed one number per line when it looks at [ferror]. *)
Lemma loop_exit lines : forall failed r o x o',
  loop lines failed r o = Ran (x, o') ->
  (x = (if failed then Failure "getline" else Success) /\
   length (written o') = (length (written o) + length lines)%nat) \/
  (x = Failure "printf" /\ room o' = Some O /\
   (length (written o') < length (written o) + length lines)%nat).
Proof.
  induction lines as [|line lines IH]; intros failed r o x o' H.
  - inversion H; subst. left. split; auto.
  - cbn [Harness.loop] in H.
    destruct (body line r o) as [res|] eqn:Hb; [|discriminate].
    destruct (turn_inv _ _ _ _ Hb) as (w & Hw).
    destruct (printf w o) as [o1|] eqn:Hp.
    + destruct Hw as (r' & -> & _).
      pose proof (printf_written _ _ _ Hp) as Hwr.
      destruct (IH _ _ _ _ _ H) as [(Hx & Hn)|(Hx & Hr & Hn)];
        rewrite Hwr, length_app in Hn; cbn [length] in *;
        [left|right]; repeat split; auto; lia.
    + subst res. inversion H; subst. right. repeat split; cbn [length].
      * unfold printf in Hp. destruct (room o') as [[|k]|]; congruence.
      * lia.
Qed.

Lemma loop_app_undefined l1 : forall l2 failed r o,
  loop l1 false r o = OutOfBounds ->
  loop (l1 ++ l2) failed r o = OutOfBounds.
Proof.
  induction l1 as [|line l1 IH]; intros l2 failed r o H; [discriminate|].
  cbn [Harness.loop app] in *.
  destruct (body line r o) as [[[r' o']|]|]; auto; discriminate.
Qed.

(** With a stream that never fails and no read error, a run that comes
    to an end is a success. *)
Lemma loop_good_exit lines r o x o' :
  loop lines false r o = Ran (x, o') -> room o = None ->
  x = Success /\ room o' = None.
Proof.
  intros H Hr. pose proof (loop_room _ _ _ _ _ _ H Hr) as Hr'.
  destruct (loop_exit _ _ _ _ _ _ H) as [(Hx & _)|(_ & Hr0 & _)]; auto.
  congruence.
Qed.

(** What [mbstowcs] leaves when it reports [n] converted code points:
    they are the first [n] elements of the array, none of them null, and
    the width printed is the total width of the first [n - 1] of them. *)
Lemma body_measures line r r' n o :
  sane -> mbstowcs C r line limit = Ran (n, r') -> n <> SIZE_MAX ->
  (Z.to_nat n <= length r')%nat /\ 0 <= n /\
  Forall (fun c => c <> 0) (firstn (Z.to_nat n) r') /\
  body line r o =
  match printf (total_width wcwidth (firstn (Z.to_nat n - 1) r')) o with
  | None => Ran None
  | Some o' => Ran (Some (r', o'))
  end.
Proof.
  intros (HL & Hs & Hmax) Hm Hn.
  unfold Harness.body. rewrite Hm.
  destruct (Z.eqb_spec n SIZE_MAX) as [|_]; [contradiction|]. cbn [negb].
  unfold mbstowcs in Hm.
  destruct (convert C (mb_initial C) line limit) as [cs e] eqn:Hc.
  pose proof (convert_nonzero _ _ _ _ _ _ Hc) as Hnz.
  destruct (convert_length _ _ _ _ _ _ Hc) as (_ & Hle & Htr).
  set (tl := match e with Terminated => [0] | _ => [] end).
  assert (Est : match e with Terminated => cs ++ [0] | _ => cs end
                = cs ++ tl)
    by (unfold tl; destruct e; rewrite ?app_nil_r; reflexivity).
  rewrite Est in Hm.
  destruct (Nat.leb_spec (length (cs ++ tl)) (length r)) as [Hfit|Hfit];
    [|discriminate].
  assert (n = Z.of_nat (length cs) /\
          r' = cs ++ (tl ++ skipn (length (cs ++ tl)) r)) as [-> ->].
  { destruct e; inversion Hm; subst; rewrite <- ?app_assoc; auto.
    contradiction. }
  rewrite Nat2Z.id, !length_app.
  rewrite firstn_app, firstn_all, Nat.sub_diag. cbn [firstn].
  rewrite app_nil_r.
  split; [lia|]. split; [lia|]. split; [exact Hnz|].
  unfold sizeof_runes in *.
  assert (Hbig : Z.of_nat (length cs) <= SIZE_MAX) by nia.
  unfold wcswidth.
  destruct cs as [|c pre _] using rev_ind.
  - cbn [length Z.of_nat Nat.sub firstn app].
    destruct e.
    + unfold tl. cbn [app]. rewrite wcswidth_at_null. reflexivity.
    + specialize (Htr eq_refl). cbn [length] in Htr. nia.
    + inversion Hm.
  - rewrite length_app in *. cbn [length] in *.
    replace (length pre + 1 - 1)%nat with (length pre) by lia.
    replace ((Z.of_nat (length pre + 1) - 1) mod 2 ^ 64)
      with (Z.of_nat (length pre))
      by (rewrite Z.mod_small; rewrite ?size_t_modulus; lia).
    rewrite <- !app_assoc.
    rewrite firstn_app, firstn_all, Nat.sub_diag. cbn [firstn].
    rewrite app_nil_r.
    rewrite wcswidth_prefix by (apply Forall_app in Hnz; apply Hnz).
    unfold total_width. reflexivity.
Qed.

(** The same, for a line whose converted code points are [cps ++ [c]]. *)
Lemma loop_line_measured line rest failed r r' n cps c o o' :
  sane -> mbstowcs C r line limit = Ran (n, r') -> n <> SIZE_MAX ->
  firstn (Z.to_nat n) r' = cps ++ [c] ->
  printf (total_width wcwidth cps) o = Some o' ->
  loop (line :: rest) failed r o = loop rest failed r' o'.
Proof.
  intros Hs Hm Hn Hcps Hp.
  destruct (body_measures line r r' n o Hs Hm Hn) as (Hle & H0 & _ & Hb).
  assert (Hlen : Z.to_nat n = (length cps + 1)%nat).
  { pose proof (length_firstn (Z.to_nat n) r') as L.
    rewrite Hcps, length_app in L. cbn [length] in L. lia. }
  assert (E : firstn (Z.to_nat n - 1) r' = cps).
  { replace (Z.to_nat n - 1)%nat
      with (Nat.min (length cps) (Z.to_nat n)) by lia.
    rewrite <- firstn_firstn, Hcps, firstn_app, firstn_all, Nat.sub_diag.
    cbn [firstn]. apply app_nil_r. }
  cbn [Harness.loop]. rewrite Hb, E, Hp. reflexivity.
Qed.

(** A line that fits is measured, and the loop goes on. *)
Lemma loop_line_fits line cs e rest failed r o o' :
  sane -> length r = Z.to_nat LINE_MAX ->
  decode C line = (cs, e) -> (length cs < length r)%nat ->
  printf (line_width cs e) o = Some o' ->
  exists r', length r' = length r /\
    loop (line :: rest) failed r o = loop rest failed r' o'.
Proof.
  intros Hs Hr Hd Hfit Hp.
  destruct (body_fits line cs e r o Hs Hr Hd Hfit) as (r' & Hl & Hb).
  exists r'. split; auto.
  cbn [Harness.loop]. rewrite Hb, Hp. reflexivity.
Qed.

Lemma runes_length (e : env) :
  length (map (stack e) (seq 0 (Z.to_nat LINE_MAX))) = Z.to_nat LINE_MAX.
Proof. rewrite length_map, length_seq. reflexivity. Qed.

Lemma main_started (e : env) stdin stdout :
  argc e <= 1 -> have_locale e = true -> have_memory e = true ->
  main LINE_MAX sizeof_wchar_t wcwidth C e stdin stdout =
  loop (getlines (content stdin)) (broken stdin)
       (map (stack e) (seq 0 (Z.to_nat LINE_MAX))) stdout.
Proof.
  intros Ha Hl Hm. unfold main. rewrite Hl, Hm.
  destruct (Z.ltb_spec 1 (argc e)); [lia|reflexivity].
Qed.

End RunFacts.

Lemma append_assoc (a b c : string) :
  ((a ++ b) ++ c)%string = (a ++ (b ++ c))%string.
Proof.
  induction a as [|ch a IH]; simpl; [reflexivity|]. rewrite IH; reflexivity.
Qed.

Lemma stdout_text_app (w1 w2 : list Z) rm1 rm2 rm :
  stdout_text (mkOstream (w1 ++ w2) rm) =
  (stdout_text (mkOstream w1 rm1) ++ stdout_text (mkOstream w2 rm2))%string.
Proof.
  unfold stdout_text. cbn [written].
  induction w1 as [|w w1 IH]; [reflexivity|].
  cbn [app map fold_right]. rewrite IH, append_assoc. reflexivity.
Qed.

(** C8: when the first file is empty or ends with a newline, the run on
    the two files put together prints what the run on the first file
    prints followed by what the run on the second prints, as lists of
    numbers and as text; it has no defined outcome exactly when one of the
    two separate runs has none. *)
Theorem concatenated_files_concatenated_outputs
  (LINE_MAX sizeof_wchar_t : Z) (wcwidth : Z -> Z) (C : codec)
  (e e1 e2 : env) (f1 f2 : list Z) :
  sane LINE_MAX sizeof_wchar_t ->
  started e -> started e1 -> started e2 ->
  f1 = [] \/ List.last f1 0 = 10 ->
  main LINE_MAX sizeof_wchar_t wcwidth C e (mkIstream (f1 ++ f2) false)
    good_stream =
  match
    main LINE_MAX sizeof_wchar_t wcwidth C e1 (mkIstream f1 false) good_stream,
    main LINE_MAX sizeof_wchar_t wcwidth C e2 (mkIstream f2 false) good_stream
  with
  | Ran (_, o1), Ran (x2, o2) =>
      Ran (x2, mkOstream (written o1 ++ written o2) None)
  | _, _ => OutOfBounds
  end /\
  (forall o1 o2 : ostream Z,
     stdout_text (mkOstream (written o1 ++ written o2) None) =
     (stdout_text o1 ++ stdout_text o2)%string).
Proof.
  intros Hs (Ha & Hl & Hm) (A1 & L1 & M1) (A2 & L2 & M2) Hnl.
  split; [|intros [w1 rm1] [w2 rm2]; apply stdout_text_app].
  rewrite !main_started by auto. cbn [content broken].
  rewrite (getlines_app f1 f2 Hnl).
  set (R := map (stack e) (seq 0 (Z.to_nat LINE_MAX))).
  set (R1 := map (stack e1) (seq 0 (Z.to_nat LINE_MAX))).
  set (R2 := map (stack e2) (seq 0 (Z.to_nat LINE_MAX))).
  assert (HR : length R = length R1)
    by (unfold R, R1; rewrite !runes_length; reflexivity).
  pose proof (loop_shift LINE_MAX sizeof_wchar_t wcwidth C (getlines f1)
                false R R1 [] [] Hs HR) as E1.
  cbn [app] in E1. fold (@good_stream Z) in E1.
  destruct (loop LINE_MAX sizeof_wchar_t wcwidth C (getlines f1) false R1
              good_stream) as [[x1 o1]|] eqn:H1.
  - destruct (loop_good_exit _ _ _ _ _ _ _ _ _ H1 eq_refl) as [-> Hr1].
    destruct o1 as [w1 rm1]. cbn [room written shift app] in *. subst rm1.
    destruct (loop_app LINE_MAX sizeof_wchar_t wcwidth C (getlines f1)
                (getlines f2) false R good_stream (mkOstream w1 None) E1)
      as (r1 & Hl1 & E).
    rewrite E.
    assert (HR2 : length r1 = length R2)
      by (unfold R2; rewrite runes_length, Hl1; apply runes_length).
    pose proof (loop_shift LINE_MAX sizeof_wchar_t wcwidth C (getlines f2)
                  false r1 R2 w1 [] Hs HR2) as E2.
    rewrite app_nil_r in E2. fold (@good_stream Z) in E2. rewrite E2.
    destruct (loop LINE_MAX sizeof_wchar_t wcwidth C (getlines f2) false R2
                good_stream) as [[x2 o2]|] eqn:H2; [|reflexivity].
    destruct (loop_good_exit _ _ _ _ _ _ _ _ _ H2 eq_refl) as [_ Hr2].
    cbn [shift]. rewrite Hr2. reflexivity.
  - cbn [shift] in E1.
    apply (loop_app_undefined LINE_MAX sizeof_wchar_t wcwidth C _
             (getlines f2) false R good_stream E1).
Qed.

(** C5: a line that is converted to its end in at least [LINE_MAX] code
    points, but fewer than the [sizeof(runes)] that [mbstowcs] is allowed
    to store, is stored past the end of [runes]. *)
Theorem long_line_stored_past_the_array
  (LINE_MAX sizeof_wchar_t : Z) (wcwidth : Z -> Z) (C : codec)
  (runes line cps : list Z) (o : ostream Z) :
  length runes = Z.to_nat LINE_MAX ->
  decode C line = (cps, Terminated) ->
  (Z.to_nat LINE_MAX <= length cps)%nat ->
  (length cps < Z.to_nat (sizeof_runes LINE_MAX sizeof_wchar_t))%nat ->
  body LINE_MAX sizeof_wchar_t wcwidth C line runes o = OutOfBounds.
Proof.
  intros Hr Hd Hcap Hlim.
  apply (body_overrun _ _ _ _ line cps); auto. lia.
Qed.

(** *** The claims at concrete inputs, under [LINE_MAX = 2048], a
    four-byte [wchar_t], UTF-8 and [ascii_wcwidth] *)

(** The empty line yields 0 and a line with an invalid byte yields -1. *)
Lemma empty_line_and_invalid_line :
  main 2048 4 ascii_wcwidth utf8 plain_start (mkIstream [10] false)
    good_stream
  = Ran (Success, mkOstream [0] None) /\
  main 2048 4 ascii_wcwidth utf8 plain_start (mkIstream [0xFF; 10] false)
    good_stream
  = Ran (Success, mkOstream [-1] None) /\
  main 2048 4 ascii_wcwidth utf8 plain_start
    (mkIstream [0x41; 0x1B; 0x42; 10] false) good_stream
  = Ran (Success, mkOstream [-1] None).
Proof.
  repeat split; vm_compute; reflexivity.
Qed.

(** A whole run on a line of 2047 letters and a newline: the line is
    converted to 2048 code points, and the null stored after them falls
    outside the 2048 elements of [runes]. *)
Lemma main_overruns_on_line_of_2048_code_points :
  sane 2048 4 /\
  decode utf8 (repeat 0x41 2047 ++ [10])
    = (repeat 0x41 2047 ++ [10], Terminated) /\
  main 2048 4 ascii_wcwidth utf8 plain_start
    (mkIstream (repeat 0x41 2047 ++ [10]) false) good_stream
  = OutOfBounds /\
  main 2048 4 ascii_wcwidth utf8 plain_start
    (mkIstream (repeat 0x41 2046 ++ [10]) false) good_stream
  = Ran (Success, mkOstream [2046] None).
Proof.
  split; [repeat split; vm_compute; congruence|].
  repeat split; vm_compute; reflexivity.
Qed.

(** C8, as first stated, fails when the first file does not end with a
    newline: ["A"] alone yields 0 and ["B\n"] alone yields 1, but the
    two together are the single line ["AB\n"], which yields 2. *)
Lemma unterminated_first_file_joins_two_lines :
  main 2048 4 ascii_wcwidth utf8 plain_start (mkIstream [0x41] false)
    good_stream
  = Ran (Success, mkOstream [0] None) /\
  main 2048 4 ascii_wcwidth utf8 plain_start (mkIstream [0x42; 10] false)
    good_stream
  = Ran (Success, mkOstream [1] None) /\
  main 2048 4 ascii_wcwidth utf8 plain_start
    (mkIstream ([0x41] ++ [0x42; 10]) false) good_stream
  = Ran (Success, mkOstream [2] None) /\
  main 2048 4 ascii_wcwidth utf8 plain_start
    (mkIstream ([0x41] ++ [0x42; 10]) false) good_stream
  <> Ran (Success, mkOstream ([0] ++ [1]) None).
Proof.
  split; [vm_compute; reflexivity|].
  split; [vm_compute; reflexivity|].
  assert (E : main 2048 4 ascii_wcwidth utf8 plain_start
                (mkIstream ([0x41] ++ [0x42; 10]) false) good_stream
              = Ran (Success, mkOstream [2] None))
    by (vm_compute; reflexivity).
  split; [exact E|]. rewrite E. discriminate.
Qed.

(** The files ["A\n"] and ["B\n"], run together, yield 1 and 1. *)
Lemma concatenated_files_concatenated_outputs_witness :
  main 2048 4 ascii_wcwidth utf8 plain_start
    (mkIstream ([0x41; 10] ++ [0x42; 10]) false) good_stream
  = Ran (Success, mkOstream ([1] ++ [1]) None).
Proof.
  destruct (concatenated_files_concatenated_outputs 2048 4 ascii_wcwidth
              utf8 plain_start plain_start plain_start
              [0x41; 10] [0x42; 10]) as [E _].
  - repeat split; vm_compute; congruence.
  - repeat split; vm_compute; congruence.
  - repeat split; vm_compute; congruence.
  - repeat split; vm_compute; congruence.
  - right. reflexivity.
  - rewrite E. vm_compute. reflexivity.
Defined.

(** A line of 2047 letters and a newline is stored past [runes[2047]]. *)
Lemma long_line_stored_past_the_array_witness :
  body 2048 4 ascii_wcwidth utf8 (repeat 0x41 2047 ++ [10])
    (map (stack plain_start) (seq 0 (Z.to_nat 2048))) good_stream
  = OutOfBounds.
Proof.
  apply (long_line_stored_past_the_array 2048 4 ascii_wcwidth utf8 _
           (repeat 0x41 2047 ++ [10]) (repeat 0x41 2047 ++ [10])).
  - apply runes_length.
  - vm_compute; reflexivity.
  - vm_compute; lia.
  - vm_compute; lia.
Defined.

End HarnessFacts.

(** * More on the range compressor: the table as a whole, and the failing
    write *)

Module CompressorMore.
Import Compressor StreamFacts CompressorFacts.

Lemma in_firstn {A} (k : nat) (l : list A) (x : A) :
  In x (firstn k l) -> In x l.
Proof.
  intros H. rewrite <- (firstn_skipn k l). apply in_or_app. auto.
Qed.

(** A record that is not the head of a chain has a predecessor in it. *)
Lemma follows_pred rs : forall r0 r,
  follows r0 rs -> In r rs ->
  exists p, In p (r0 :: rs) /\ first r = last p + 1 /\
    (width r = width p -> IS_BOUNDARY (first r) = true).
Proof.
  induction rs as [|q rs IH]; intros r0 r Hf Hin; [destruct Hin|].
  destruct Hf as (Ha & Hb & Hc & Hd). destruct Hin as [<-|Hin].
  - exists r0. split; [left; auto|auto].
  - destruct (IH q r Hd Hin) as (p & Hp & H1 & H2).
    exists p. split; [right; auto|auto].
Qed.

Section Table.

Variable wcwidth : Z -> Z.

(** What [n] iterations print does not depend on what was printed before;
    a stream that takes [k] more writes gets the first [k] records and
    then stops the loop. *)
Lemma loop_prefix n : forall i v,
  exists rs,
    (forall w, written (snd (loop wcwidth n i v (mkOstream w None)))
               = w ++ rs) /\
    (forall w k,
       written (snd (loop wcwidth n i v (mkOstream w (Some k))))
         = w ++ firstn k rs /\
       fst (fst (loop wcwidth n i v (mkOstream w (Some k))))
         = if (k <? length rs)%nat then Failure "printf" else Success).
Proof.
  induction n as [|n IH]; intros i v.
  - exists []. split; intros; cbn [loop fst snd written];
      rewrite ?firstn_nil, app_nil_r; auto.
  - cbn [loop]. unfold body.
    destruct ((i =? 0) || negb (wcwidth i =? previous_width v)
              || IS_BOUNDARY i);
      [destruct (negb (i =? 0))|].
    + destruct (IH (i + 1) (mkVars (wcwidth i) i i)) as (rs & H1 & H2).
      exists (mkRange (previous_width v) (start v) (end_ v) :: rs).
      split.
      * intros w. cbn [printf room written]. rewrite H1, <- app_assoc.
        reflexivity.
      * intros w [|k]; cbn [printf room written].
        -- cbn [fst snd written firstn]. rewrite app_nil_r. auto.
        -- destruct (H2 (w ++ [mkRange (previous_width v) (start v)
                                 (end_ v)]) k) as [Hw Hx].
           rewrite Hw, Hx, <- app_assoc. auto.
    + destruct (IH (i + 1) (mkVars (wcwidth i) i i)) as (rs & H1 & H2).
      exists rs. auto.
    + destruct (IH (i + 1) (mkVars (previous_width v) (start v) i))
        as (rs & H1 & H2).
      exists rs. auto.
Qed.

Lemma emitted_prefix (k : nat) :
  emitted wcwidth (mkOstream [] (Some k))
    = firstn k (emitted wcwidth good_stream) /\
  exit_status wcwidth (mkOstream [] (Some k))
    = if (k <? length (emitted wcwidth good_stream))%nat
      then Failure "printf" else Success.
Proof.
  unfold emitted, exit_status, main, good_stream.
  destruct (loop_prefix (Z.to_nat (0x10FFFF + 1)) 0 (mkVars 0 0 0))
    as (rs & H1 & H2).
  rewrite (H1 []). destruct (H2 [] k) as [Hw Hx]. rewrite Hw, Hx.
  auto.
Qed.

Lemma emitted_in_good rm r :
  In r (emitted wcwidth (mkOstream [] rm)) ->
  In r (emitted wcwidth good_stream).
Proof.
  destruct rm as [k|]; [|auto].
  destruct (emitted_prefix k) as [-> _]. apply in_firstn.
Qed.

Lemma emitted_uniform rm r :
  In r (emitted wcwidth (mkOstream [] rm)) -> uniform wcwidth r.
Proof.
  unfold emitted. rewrite main_unfold.
  assert (Hu : uniform wcwidth (pending (mkVars (wcwidth 0) 0 0))).
  { intros x Hx. cbn [pending first last width start end_
                        previous_width] in *.
    assert (x = 0) by lia. subst x. split; [auto|lia]. }
  destruct (loop_uniform wcwidth (Z.to_nat 0x10FFFF) 1
              (mkVars (wcwidth 0) 0 0) (mkOstream [] rm))
    as (rs & Hwr & Hfa & _); cbn [end_]; auto; try lia.
  rewrite Hwr. cbn [written app]. intros Hin.
  rewrite Forall_forall in Hfa. auto.
Qed.

(** Two printed records that share a code point are the same record. *)
Lemma emitted_disjoint r1 r2 x :
  In r1 (emitted wcwidth good_stream) ->
  In r2 (emitted wcwidth good_stream) ->
  first r1 <= x <= last r1 -> first r2 <= x <= last r2 -> r1 = r2.
Proof.
  destruct (emitted_good_shape wcwidth)
    as (r & rest & pw & -> & _ & Hr & Hf & _).
  apply follows_app_l in Hf.
  intros H1 H2 Hx1 Hx2.
  apply In_nth_error in H1. destruct H1 as [j Hj].
  apply In_nth_error in H2. destruct H2 as [k Hk].
  destruct (Nat.lt_trichotomy j k) as [Hlt|[->|Hlt]].
  - pose proof (follows_ordered _ _ _ _ _ _ Hf Hr Hlt Hj Hk). lia.
  - congruence.
  - pose proof (follows_ordered _ _ _ _ _ _ Hf Hr Hlt Hk Hj). lia.
Qed.

End Table.

(** X2: on a stream that never fails, every code point from 0 to 0x10FFFE
    lies in exactly one printed record, and that record carries the
    width the classifier gives the code point: the table read back gives
    the classifier. *)
Theorem table_gives_classifier_width (wcwidth : Z -> Z) (x : Z) :
  0 <= x <= 0x10FFFE ->
  exists r,
    In r (emitted wcwidth good_stream) /\
    first r <= x <= last r /\
    width r = wcwidth x /\
    (forall r', In r' (emitted wcwidth good_stream) ->
       first r' <= x <= last r' -> r' = r).
Proof.
  intros Hx.
  assert (Hc : covered (emitted wcwidth good_stream) x)
    by (apply emitted_good_covered; lia).
  destruct Hc as (r & Hin & Hr).
  exists r. repeat split; auto; try lia.
  - symmetry. apply (emitted_uniform wcwidth None r Hin x Hr).
  - intros r' Hin' Hr'. apply (emitted_disjoint wcwidth r' r x); auto.
Qed.

Lemma table_gives_classifier_width_witness :
  exists r,
    In r (emitted sample_wcwidth good_stream) /\
    first r <= 0x4E2D <= last r /\
    width r = 2 /\
    (forall r', In r' (emitted sample_wcwidth good_stream) ->
       first r' <= 0x4E2D <= last r' -> r' = r).
Proof.
  apply (table_gives_classifier_width sample_wcwidth 0x4E2D). lia.
Defined.

(** X3: on a stream that never fails, a printed record begins at the code
    point [x] of 0..0x10FFFE exactly when [x] is 0, or a boundary code
    point, or a code point whose width differs from that of [x - 1];
    nowhere else is the table split. *)
Theorem range_starts_exactly_where_needed (wcwidth : Z -> Z) (x : Z) :
  0 <= x <= 0x10FFFE ->
  ((exists r, In r (emitted wcwidth good_stream) /\ first r = x) <->
   x = 0 \/ IS_BOUNDARY x = true \/ wcwidth x <> wcwidth (x - 1)).
Proof.
  intros Hx. split.
  - intros (r & Hin & Hr).
    pose proof (emitted_nonempty wcwidth None r Hin) as Hne.
    pose proof (emitted_uniform wcwidth None r Hin) as Hu.
    unfold good_stream in *.
    generalize (emitted_chain wcwidth None) Hin.
    destruct (emitted wcwidth (mkOstream [] None)) as [|r0 rest] eqn:E;
      [intros _ []|].
    intros (H0 & Hr0 & Hf) [->|Hin']; [left; lia|].
    destruct (follows_pred _ _ _ Hf Hin') as (p & Hp & Hadj & Hb).
    destruct (IS_BOUNDARY x) eqn:Hbx; [auto|]. right. right.
    rewrite <- E in Hp.
    pose proof (emitted_nonempty wcwidth None p Hp) as Hpne.
    pose proof (emitted_uniform wcwidth None p Hp) as Hup.
    destruct (Hu x) as [Hwx _]; [lia|].
    destruct (Hup (x - 1)) as [Hwp _]; [lia|].
    rewrite Hwx, Hwp. intros Heq. rewrite Hr, Hbx in Hb.
    specialize (Hb Heq). discriminate.
  - intros [->|[Hb|Hw]].
    + destruct (emitted_good_shape wcwidth)
        as (r & rest & pw & -> & H0 & _).
      exists r. split; [left; auto|auto].
    + destruct (emitted_good_shape wcwidth)
        as (r & rest & pw & -> & H0 & _ & _ & Hbd).
      destruct (Z.eq_dec x 0) as [->|Hne]; [discriminate Hb|].
      assert (Hin : In x (map first (r :: rest))) by (apply Hbd; auto; lia).
      apply in_map_iff in Hin. destruct Hin as (q & Hq & Hin). eauto.
    + assert (Hc : covered (emitted wcwidth good_stream) x)
        by (apply emitted_good_covered; lia).
      destruct Hc as (r & Hin & Hr).
      exists r. split; [auto|].
      destruct (Z.eq_dec (first r) x) as [|Hne]; [auto|exfalso].
      pose proof (emitted_uniform wcwidth None r Hin) as Hu.
      destruct (Hu x) as [Hwx _]; [lia|].
      destruct (Hu (x - 1)) as [Hwp _]; [lia|].
      congruence.
Qed.

Lemma range_starts_exactly_where_needed_witness :
  (exists r, In r (emitted sample_wcwidth good_stream) /\ first r = 0x4E00)
  <-> 0x4E00 = 0 \/ IS_BOUNDARY 0x4E00 = true \/
      sample_wcwidth 0x4E00 <> sample_wcwidth (0x4E00 - 1).
Proof.
  apply (range_starts_exactly_where_needed sample_wcwidth 0x4E00). lia.
Defined.

(** X4: when the standard output takes [k] more writes and then fails,
    what is printed is the first [k] records of the full table, and the
    program returns 1 after [perror] exactly when the table has more than
    [k] records, 0 otherwise. *)
Theorem failed_write_leaves_first_records (wcwidth : Z -> Z) (k : nat) :
  emitted wcwidth (mkOstream [] (Some k))
    = firstn k (emitted wcwidth good_stream) /\
  exit_status wcwidth (mkOstream [] (Some k))
    = (if (k <? length (emitted wcwidth good_stream))%nat
       then Failure "printf" else Success) /\
  exit_code (exit_status wcwidth (mkOstream [] (Some k)))
    = (if (k <? length (emitted wcwidth good_stream))%nat then 1 else 0).
Proof.
  destruct (emitted_prefix wcwidth k) as [Hw Hx].
  repeat split; auto. rewrite Hx.
  destruct (k <? length (emitted wcwidth good_stream))%nat; reflexivity.
Qed.

(** X5: whatever happens to the stream, every printed record lies within
    the code points 0 to 0x10FFFE. *)
Theorem printed_records_within_code_points
  (wcwidth : Z -> Z) (rm : option nat) (r : range) :
  In r (emitted wcwidth (mkOstream [] rm)) ->
  0 <= first r /\ first r <= last r /\ last r <= 0x10FFFE.
Proof.
  intros Hin.
  pose proof (emitted_nonempty wcwidth rm r Hin) as Hne.
  apply emitted_in_good in Hin.
  assert (H1 : covered (emitted wcwidth good_stream) (first r))
    by (exists r; split; [auto|lia]).
  assert (H2 : covered (emitted wcwidth good_stream) (last r))
    by (exists r; split; [auto|lia]).
  apply emitted_good_covered in H1. apply emitted_good_covered in H2. lia.
Qed.

Lemma printed_records_within_code_points_witness :
  0 <= first (mkRange 1 32 126) /\
  first (mkRange 1 32 126) <= last (mkRange 1 32 126) /\
  last (mkRange 1 32 126) <= 0x10FFFE.
Proof.
  apply (printed_records_within_code_points sample_wcwidth (Some 5%nat)).
  vm_compute. auto.
Defined.

(** The second record for [sample_wcwidth], the control characters 1 to
    31, is uniform. *)
Lemma emitted_ranges_uniform_witness :
  uniform sample_wcwidth (mkRange (-1) 1 31).
Proof.
  apply (emitted_ranges_uniform sample_wcwidth (Some 5%nat)).
  vm_compute. auto.
Defined.

End CompressorMore.

(** * More on the width harness: whole runs, long lines, null bytes and
    failing streams *)

Module HarnessMore.
Import Harness Lines StreamFacts HarnessFacts.

Section Conversion.

Variable C : codec.

(** Under a limit that the code points of the string reach, exactly the
    first ones up to the limit are converted. *)
Lemma convert_cut s : forall st n m cs e,
  convert C st s n = (cs, e) -> (m <= length cs)%nat ->
  convert C st s m = (firstn m cs, Truncated).
Proof.
  induction s as [|b s IH]; intros st n m cs e H Hm;
    (destruct m as [|m]; [reflexivity|]);
    destruct n as [|n]; cbn [convert] in *; unfold at_null in *;
    try (inversion H; subst; cbn [length] in Hm; lia).
  - destruct (mbsinit C st); inversion H; subst; cbn [length] in Hm; lia.
  - destruct (b =? 0).
    + destruct (mbsinit C st); inversion H; subst; cbn [length] in Hm; lia.
    + destruct (mbrtowc C st b) as [c|st'|].
      * destruct (c =? 0);
          [inversion H; subst; cbn [length] in Hm; lia|].
        destruct (convert C (mb_initial C) s n) as [cs' e'] eqn:E.
        inversion H; subst. cbn [length] in Hm.
        rewrite (IH _ _ m _ _ E) by lia. reflexivity.
      * apply (IH _ _ _ _ _ H Hm).
      * inversion H; subst; cbn [length] in Hm; lia.
Qed.

(** The bytes behind a null byte are not looked at. *)
Lemma convert_null pre : forall post st n,
  convert C st (pre ++ 0 :: post) n = convert C st pre n.
Proof.
  induction pre as [|b pre IH]; intros post st n; destruct n as [|n];
    cbn [convert app]; auto.
  destruct (b =? 0); [reflexivity|].
  destruct (mbrtowc C st b) as [c|st'|]; [|apply IH|reflexivity].
  destruct (c =? 0); [reflexivity|]. rewrite IH. reflexivity.
Qed.

End Conversion.

Lemma getlines_concat (s : list Z) : concat (getlines s) = s.
Proof.
  induction s as [|b s IH]; [reflexivity|].
  cbn [getlines]. destruct (b =? 10).
  - cbn [concat app]. rewrite IH. reflexivity.
  - destruct (getlines s) as [|l ls]; cbn [concat app] in *.
    + rewrite <- IH. reflexivity.
    + rewrite <- IH. reflexivity.
Qed.

Lemma getlines_shape (s : list Z) : forall k l,
  nth_error (getlines s) k = Some l ->
  exists pre, ~ In 10 pre /\
    (l = pre ++ [10] \/
     (l = pre /\ pre <> [] /\ length (getlines s) = S k)).
Proof.
  induction s as [|b s IH]; intros k l H.
  - destruct k; discriminate.
  - cbn [getlines] in *. destruct (Z.eqb_spec b 10) as [->|Hb].
    + destruct k as [|k]; cbn [nth_error] in H.
      * inversion H. exists []. split; [intros []|left; reflexivity].
      * destruct (IH k l H) as (pre & Hp & [->|(-> & Hn & Hl)]).
        -- exists pre. auto.
        -- exists pre. split; [auto|right]. cbn [length]. auto.
    + destruct (getlines s) as [|l0 ls].
      * destruct k as [|k]; cbn [nth_error] in H;
          [|destruct k; discriminate].
        inversion H. exists [b]. split.
        -- intros [E|[]]. congruence.
        -- right. repeat split. discriminate.
      * destruct k as [|k]; cbn [nth_error] in H.
        -- inversion H; subst.
           destruct (IH 0%nat l0 eq_refl) as (pre & Hp & [->|(-> & Hn & Hl)]).
           ++ exists (b :: pre). split; [|left; reflexivity].
              intros [E|Hin]; [congruence|auto].
           ++ exists (b :: pre). split.
              ** intros [E|Hin]; [congruence|auto].
              ** right. repeat split; [discriminate|auto].
        -- destruct (IH (S k) l H) as (pre & Hp & Hc).
           exists pre. auto.
Qed.

Section Runs.

Variable LINE_MAX : Z.
Variable sizeof_wchar_t : Z.
Variable wcwidth : Z -> Z.
Variable C : codec.

Local Abbreviation body := (body LINE_MAX sizeof_wchar_t wcwidth C).
Local Abbreviation loop := (loop LINE_MAX sizeof_wchar_t wcwidth C).
Local Abbreviation main := (main LINE_MAX sizeof_wchar_t wcwidth C).
Local Abbreviation limit := (Z.to_nat (sizeof_runes LINE_MAX sizeof_wchar_t)).
Local Abbreviation sane := (sane LINE_MAX sizeof_wchar_t).

(** What a turn does to the stream, apart from the stream itself. *)
Lemma body_stream line r :
  (forall o, body line r o = OutOfBounds) \/
  (exists w r', length r' = length r /\
     forall o, body line r o =
       match printf w o with
       | None => Ran None
       | Some o' => Ran (Some (r', o'))
       end).
Proof.
  unfold Harness.body.
  destruct (mbstowcs C r line limit) as [[count r']|] eqn:Hm; [|auto].
  destruct (if negb (count =? SIZE_MAX) then _ else _) as [w|]; [|auto].
  right. exists w, r'. split; [|auto].
  unfold mbstowcs in Hm.
  destruct (convert C (mb_initial C) line limit) as [cs e].
  destruct (Nat.leb_spec
              (length (match e with Terminated => cs ++ [0] | _ => cs end))
              (length r)); [|discriminate].
  inversion Hm. apply stored_length. auto.
Qed.

(** The loop does not depend on what the array holds at the start. *)
Lemma loop_indep lines : forall failed r1 r2 o,
  sane -> length r1 = length r2 ->
  loop lines failed r1 o = loop lines failed r2 o.
Proof.
  induction lines as [|line lines IH]; intros failed r1 r2 o Hs Hlen;
    [reflexivity|].
  cbn [Harness.loop].
  destruct (body_agree LINE_MAX sizeof_wchar_t wcwidth C line r1 r2 o o
              Hs Hlen) as (res & H1 & H2).
  destruct res as [w|]; cbn [body_is] in H1, H2.
  - destruct H1 as (r1' & Hl1 & ->). destruct H2 as (r2' & Hl2 & ->).
    destruct (printf w o); [|reflexivity]. apply IH; auto. congruence.
  - rewrite H1, H2. reflexivity.
Qed.

(** A read error changes the exit status of a run that answered every
    line, and nothing else. *)
Lemma loop_read_error lines : forall r o,
  loop lines true r o =
  match loop lines false r o with
  | Ran (Success, o') => Ran (Failure "getline", o')
  | other => other
  end.
Proof.
  induction lines as [|line lines IH]; intros r o; [reflexivity|].
  cbn [Harness.loop].
  destruct (body line r o) as [[[r' o']|]|]; auto.
Qed.

(** With a stream that takes [k] more writes the loop prints the first
    [k] of the numbers it prints on a stream that never fails. *)
Lemma loop_write_error lines : forall failed r w x o,
  loop lines failed r (mkOstream w None) = Ran (x, o) ->
  exists ws,
    o = mkOstream (w ++ ws) None /\ length ws = length lines /\
    forall w' k,
      loop lines failed r (mkOstream w' (Some k)) =
      Ran (if (k <? length ws)%nat then Failure "printf" else x,
           mkOstream (w' ++ firstn k ws) (Some (k - length ws)%nat)).
Proof.
  induction lines as [|line lines IH]; intros failed r w x o H.
  - inversion H; subst. exists []. rewrite app_nil_r.
    repeat split; auto. intros w' k. cbn [Harness.loop length].
    rewrite firstn_nil, app_nil_r, Nat.sub_0_r. reflexivity.
  - cbn [Harness.loop] in H.
    destruct (body_stream line r) as [Hb|(wd & r' & Hl & Hb)].
    + rewrite Hb in H. discriminate.
    + rewrite Hb in H. cbn [printf room written] in H.
      destruct (IH _ _ _ _ _ H) as (ws & -> & Hn & Hk).
      exists (wd :: ws). rewrite <- app_assoc.
      repeat split; auto; [cbn [length]; lia|].
      intros w' [|k]; cbn [Harness.loop]; rewrite Hb;
        cbn [printf room written].
      * cbn [firstn length]. rewrite app_nil_r. reflexivity.
      * rewrite Hk, <- app_assoc. reflexivity.
Qed.


(** One turn of the loop, told from the line alone. *)
Lemma body_exact line r o :
  sane -> 2 <= sizeof_wchar_t -> length r = Z.to_nat LINE_MAX ->
  if overlong LINE_MAX C line then body line r o = OutOfBounds
  else exists r', length r' = length r /\
         body line r o =
         match printf (line_value wcwidth C line) o with
         | None => Ran None
         | Some o' => Ran (Some (r', o'))
         end.
Proof.
  intros Hs H2 Hr. pose proof Hs as (HL & Hsz & Hmax).
  unfold overlong, line_value.
  destruct (decode C line) as [cs e] eqn:Hd.
  pose proof (decode_not_truncated _ _ _ _ Hd) as Hnt.
  assert (Hlimit : (2 * Z.to_nat LINE_MAX <= limit)%nat)
    by (unfold sizeof_runes; nia).
  destruct (Nat.lt_ge_cases (length cs) limit) as [Hlt|Hge].
  - pose proof (decode_convert _ _ _ _ _ Hd Hlt) as Hc.
    destruct e; [| congruence |].
    + destruct (Nat.leb_spec (Z.to_nat LINE_MAX) (length cs)) as [Hov|Hfit].
      * apply (body_overrun _ _ _ _ line cs); auto. lia.
      * apply (body_fits _ _ _ _ line cs Terminated); auto. lia.
    + unfold Harness.body, mbstowcs. rewrite Hc.
      destruct (Nat.ltb_spec (Z.to_nat LINE_MAX) (length cs)) as [Hov|Hfit].
      * destruct (Nat.leb_spec (length cs) (length r)); [lia|reflexivity].
      * destruct (Nat.leb_spec (length cs) (length r)); [|lia].
        rewrite Z.eqb_refl. cbn [negb line_width].
        eexists. split; [|reflexivity]. apply stored_length. lia.
  - unfold decode in Hd.
    pose proof (convert_cut C _ _ _ limit _ _ Hd Hge) as Hc.
    assert (Hov : body line r o = OutOfBounds).
    { unfold Harness.body, mbstowcs. rewrite Hc.
      rewrite length_firstn.
      destruct (Nat.leb_spec (Nat.min limit (length cs)) (length r));
        [lia|reflexivity]. }
    destruct e; [| congruence |].
    + destruct (Nat.leb_spec (Z.to_nat LINE_MAX) (length cs)); [auto|lia].
    + destruct (Nat.ltb_spec (Z.to_nat LINE_MAX) (length cs)); [auto|lia].
Qed.

Lemma loop_exact lines : forall failed r w,
  sane -> 2 <= sizeof_wchar_t -> length r = Z.to_nat LINE_MAX ->
  loop lines failed r (mkOstream w None) =
  if existsb (overlong LINE_MAX C) lines then OutOfBounds
  else Ran (if failed then Failure "getline" else Success,
            mkOstream (w ++ map (line_value wcwidth C) lines) None).
Proof.
  induction lines as [|line lines IH]; intros failed r w Hs H2 Hr.
  - cbn [Harness.loop existsb map]. rewrite app_nil_r. reflexivity.
  - cbn [Harness.loop existsb map].
    pose proof (body_exact line r (mkOstream w None) Hs H2 Hr) as Hb.
    destruct (overlong LINE_MAX C line).
    + rewrite Hb. reflexivity.
    + destruct Hb as (r' & Hl & ->). cbn [printf room written orb].
      rewrite IH by (auto; congruence). rewrite <- app_assoc. reflexivity.
Qed.



End Runs.

(** X6: the indeterminate values that the array [runes] holds when the
    program starts never show in what the program prints or returns. *)
Theorem array_content_never_shows
  (LINE_MAX sizeof_wchar_t : Z) (wcwidth : Z -> Z) (C : codec)
  (a : Z) (l m : bool) (st1 st2 : nat -> Z)
  (stdin : istream) (o : ostream Z) :
  sane LINE_MAX sizeof_wchar_t ->
  main LINE_MAX sizeof_wchar_t wcwidth C (mkEnv a l m st1) stdin o =
  main LINE_MAX sizeof_wchar_t wcwidth C (mkEnv a l m st2) stdin o.
Proof.
  intros Hs. unfold main. cbn [argc have_locale have_memory stack].
  destruct (1 <? a); [reflexivity|].
  destruct (negb l); [reflexivity|]. destruct (negb m); [reflexivity|].
  apply loop_indep; auto. rewrite !length_map. reflexivity.
Qed.

(** X7: with a [wchar_t] of at least two bytes, a started run on a
    standard output that never fails has no defined outcome when some
    line is too long for the array, and otherwise prints, line by line,
    the width of each line without its last code point (-1 for a line
    that cannot be converted), returning 1 only for a read error. *)
Theorem run_answers_line_by_line
  (LINE_MAX sizeof_wchar_t : Z) (wcwidth : Z -> Z) (C : codec)
  (e : env) (bytes : list Z) (b : bool) :
  sane LINE_MAX sizeof_wchar_t -> 2 <= sizeof_wchar_t -> started e ->
  main LINE_MAX sizeof_wchar_t wcwidth C e (mkIstream bytes b) good_stream =
  if existsb (overlong LINE_MAX C) (getlines bytes) then OutOfBounds
  else Ran (if b then Failure "getline" else Success,
            mkOstream (map (line_value wcwidth C) (getlines bytes)) None).
Proof.
  intros Hs H2 (Ha & Hl & Hm).
  rewrite main_started by auto. cbn [content broken].
  unfold good_stream.
  rewrite (loop_exact LINE_MAX sizeof_wchar_t wcwidth C)
    by (auto; apply runes_length).
  reflexivity.
Qed.

(** X8: with a [wchar_t] of at least two bytes, the turn of the loop for
    a line stores outside [runes] exactly when the line is too long: its
    conversion reaches the end after [LINE_MAX] code points or more, or
    an invalid sequence after more than [LINE_MAX]. *)
Theorem line_leaves_array_iff_overlong
  (LINE_MAX sizeof_wchar_t : Z) (wcwidth : Z -> Z) (C : codec)
  (line runes : list Z) (o : ostream Z) :
  sane LINE_MAX sizeof_wchar_t -> 2 <= sizeof_wchar_t ->
  length runes = Z.to_nat LINE_MAX ->
  (body LINE_MAX sizeof_wchar_t wcwidth C line runes o = OutOfBounds <->
   overlong LINE_MAX C line = true).
Proof.
  intros Hs H2 Hr.
  pose proof (body_exact LINE_MAX sizeof_wchar_t wcwidth C line runes o
                Hs H2 Hr) as Hb.
  destruct (overlong LINE_MAX C line).
  - split; auto.
  - destruct Hb as (r' & _ & ->). split; [|discriminate].
    destruct (printf _ o); discriminate.
Qed.

(** X9: what follows a null byte in a line has no part in the answer:
    the length that [getline] returns is not used, and [mbstowcs] stops
    at the first null byte. *)
Theorem bytes_after_null_ignored
  (LINE_MAX sizeof_wchar_t : Z) (wcwidth : Z -> Z) (C : codec)
  (pre post runes : list Z) (rest : list (list Z)) (failed : bool)
  (o : ostream Z) :
  loop LINE_MAX sizeof_wchar_t wcwidth C ((pre ++ 0 :: post) :: rest)
    failed runes o =
  loop LINE_MAX sizeof_wchar_t wcwidth C (pre :: rest) failed runes o.
Proof.
  cbn [loop]. unfold body, mbstowcs. rewrite convert_null. reflexivity.
Qed.

(** X10: a line that begins with a null byte is converted to no code
    point at all; [count - 1] then wraps around to [(size_t) -1], and
    yet [wcswidth] stops at the null that was stored in [runes[0]]: the
    answer is 0 and the loop goes on. *)
Theorem line_starting_with_null_yields_zero
  (LINE_MAX sizeof_wchar_t : Z) (wcwidth : Z -> Z) (C : codec)
  (post runes : list Z) (rest : list (list Z)) (failed : bool)
  (o : ostream Z) :
  sane LINE_MAX sizeof_wchar_t ->
  mbsinit C (mb_initial C) = true ->
  length runes = Z.to_nat LINE_MAX ->
  mbstowcs C runes (0 :: post)
    (Z.to_nat (sizeof_runes LINE_MAX sizeof_wchar_t))
    = Ran (0, 0 :: skipn 1 runes) /\
  (0 - 1) mod 2 ^ 64 = SIZE_MAX /\
  loop LINE_MAX sizeof_wchar_t wcwidth C ((0 :: post) :: rest) failed runes o
  = match printf 0 o with
    | None => Ran (Failure "printf", o)
    | Some o' =>
        loop LINE_MAX sizeof_wchar_t wcwidth C rest failed
          (0 :: skipn 1 runes) o'
    end.
Proof.
  intros (HL & Hs & Hmax) Hi Hr.
  assert (Hm : mbstowcs C runes (0 :: post)
                 (Z.to_nat (sizeof_runes LINE_MAX sizeof_wchar_t))
               = Ran (0, 0 :: skipn 1 runes)).
  { unfold mbstowcs, sizeof_runes.
    destruct (Z.to_nat (LINE_MAX * sizeof_wchar_t)) as [|n] eqn:En; [nia|].
    cbn [convert Z.eqb]. unfold at_null. rewrite Hi.
    cbn [app length].
    destruct (Nat.leb_spec 1 (length runes)); [reflexivity|lia]. }
  split; [exact Hm|]. split; [reflexivity|].
  cbn [loop]. unfold body. rewrite Hm.
  replace (negb (0 =? SIZE_MAX)) with true by reflexivity.
  unfold wcswidth. rewrite wcswidth_at_null.
  destruct (printf 0 o); reflexivity.
Qed.


(** X12: a read error on standard input does not cost any answer: the
    run prints what it prints without the error and, where it would have
    returned 0, returns 1 after [perror("getline")]. *)
Theorem read_error_reported_after_the_answers
  (LINE_MAX sizeof_wchar_t : Z) (wcwidth : Z -> Z) (C : codec)
  (e : env) (bytes : list Z) (o : ostream Z) :
  main LINE_MAX sizeof_wchar_t wcwidth C e (mkIstream bytes true) o =
  match main LINE_MAX sizeof_wchar_t wcwidth C e (mkIstream bytes false) o
  with
  | Ran (Success, o') => Ran (Failure "getline", o')
  | other => other
  end.
Proof.
  unfold main. cbn [content broken].
  destruct (1 <? argc e); [reflexivity|].
  destruct (negb (have_locale e)); [reflexivity|].
  destruct (negb (have_memory e)); [reflexivity|].
  apply loop_read_error.
Qed.

(** X13: when the standard output takes [k] more writes and then fails,
    the run prints the first [k] of the answers it gives on a stream
    that never fails, and returns 1 after [perror("printf")] exactly when
    there are more than [k] answers. *)
Theorem failed_write_leaves_first_answers
  (LINE_MAX sizeof_wchar_t : Z) (wcwidth : Z -> Z) (C : codec)
  (e : env) (stdin : istream) (x : exit) (o : ostream Z) (k : nat) :
  main LINE_MAX sizeof_wchar_t wcwidth C e stdin good_stream = Ran (x, o) ->
  main LINE_MAX sizeof_wchar_t wcwidth C e stdin (mkOstream [] (Some k)) =
  Ran (if (k <? length (written o))%nat then Failure "printf" else x,
       mkOstream (firstn k (written o))
                 (Some (k - length (written o))%nat)).
Proof.
  unfold main, good_stream.
  destruct (1 <? argc e);
    [intros H; inversion H; subst; cbn [written length];
     rewrite firstn_nil, Nat.sub_0_r; reflexivity|].
  destruct (negb (have_locale e));
    [intros H; inversion H; subst; cbn [written length];
     rewrite firstn_nil, Nat.sub_0_r; reflexivity|].
  destruct (negb (have_memory e));
    [intros H; inversion H; subst; cbn [written length];
     rewrite firstn_nil, Nat.sub_0_r; reflexivity|].
  intros H.
  destruct (loop_write_error LINE_MAX sizeof_wchar_t wcwidth C _ _ _ _ _ _ H)
    as (ws & -> & _ & Hk).
  rewrite (Hk [] k). reflexivity.
Qed.

(** X14: the lines that the loop is given make up the input, byte for
    byte and in order; each of them ends with its only newline, but for
    the last one, which may be a non-empty rest without newline. *)
Theorem input_cut_after_each_newline (bytes : list Z) :
  concat (getlines bytes) = bytes /\
  (forall k line,
     nth_error (getlines bytes) k = Some line ->
     exists pre, ~ In 10 pre /\
       (line = pre ++ [10] \/
        (line = pre /\ pre <> [] /\ length (getlines bytes) = S k))).
Proof.
  split; [apply getlines_concat|apply getlines_shape].
Qed.

(** *** The statements at concrete inputs, under [LINE_MAX = 2048], a
    four-byte [wchar_t], UTF-8 and [ascii_wcwidth] *)


(** Two starts that differ in what the stack holds. *)
Lemma array_content_never_shows_witness :
  main 2048 4 ascii_wcwidth utf8 (mkEnv 1 true true (fun _ => 0x58))
    (mkIstream [0x41; 10; 0x42] false) good_stream =
  main 2048 4 ascii_wcwidth utf8 (mkEnv 1 true true (fun k => Z.of_nat k))
    (mkIstream [0x41; 10; 0x42] false) good_stream.
Proof.
  apply (array_content_never_shows 2048 4 ascii_wcwidth utf8).
  repeat split; vm_compute; congruence.
Defined.

(** The lines ["AB\n"], [0xFF "\n"] and ["C"] yield 2, -1 and 0. *)
Lemma run_answers_line_by_line_witness :
  main 2048 4 ascii_wcwidth utf8 plain_start
    (mkIstream [0x41; 0x42; 10; 0xFF; 10; 0x43] false) good_stream
  = Ran (Success, mkOstream [2; -1; 0] None).
Proof.
  etransitivity.
  - apply (run_answers_line_by_line 2048 4 ascii_wcwidth utf8 plain_start).
    + repeat split; vm_compute; congruence.
    + lia.
    + repeat split; vm_compute; congruence.
  - vm_compute. reflexivity.
Defined.

(** A line of 2047 letters and a newline is too long, one of 2046 letters
    and a newline is not. *)
Lemma line_leaves_array_iff_overlong_witness :
  (body 2048 4 ascii_wcwidth utf8 (repeat 0x41 2047 ++ [10])
     (map (stack plain_start) (seq 0 (Z.to_nat 2048))) good_stream
   = OutOfBounds <->
   overlong 2048 utf8 (repeat 0x41 2047 ++ [10]) = true) /\
  overlong 2048 utf8 (repeat 0x41 2047 ++ [10]) = true /\
  overlong 2048 utf8 (repeat 0x41 2046 ++ [10]) = false.
Proof.
  split; [|split; vm_compute; reflexivity].
  apply (line_leaves_array_iff_overlong 2048 4 ascii_wcwidth utf8).
  - repeat split; vm_compute; congruence.
  - lia.
  - apply runes_length.
Defined.

(** The line of a null byte, a letter and a newline yields 0. *)
Lemma line_starting_with_null_yields_zero_witness :
  main 2048 4 ascii_wcwidth utf8 plain_start
    (mkIstream [0; 0x41; 10] false) good_stream
  = Ran (Success, mkOstream [0] None).
Proof.
  rewrite main_started by (vm_compute; congruence).
  cbn [content broken getlines Z.eqb Pos.eqb].
  destruct (line_starting_with_null_yields_zero 2048 4 ascii_wcwidth utf8
              [0x41; 10] (map (stack plain_start) (seq 0 (Z.to_nat 2048)))
              [] false good_stream) as (_ & _ & E).
  - repeat split; vm_compute; congruence.
  - reflexivity.
  - apply runes_length.
  - rewrite E. reflexivity.
Defined.


(** Of the three answers 1, -1 and 1 a stream that takes one write gets
    the first. *)
Lemma failed_write_leaves_first_answers_witness :
  main 2048 4 ascii_wcwidth utf8 plain_start
    (mkIstream [0x41; 10; 0xFF; 10; 0x42; 10] false)
    (mkOstream [] (Some 1%nat))
  = Ran (Failure "printf", mkOstream [1] (Some 0%nat)).
Proof.
  apply (failed_write_leaves_first_answers 2048 4 ascii_wcwidth utf8
           plain_start (mkIstream [0x41; 10; 0xFF; 10; 0x42; 10] false)
           Success (mkOstream [1; -1; 1] None) 1).
  vm_compute. reflexivity.
Defined.

End HarnessMore.

(** * The harness on one line: the answer, and the lines that are too
    long for the array *)

Module HarnessLines.
Import Harness Lines StreamFacts HarnessFacts HarnessMore.

Section Turns.

Variable LINE_MAX : Z.
Variable sizeof_wchar_t : Z.
Variable wcwidth : Z -> Z.
Variable C : codec.

Local Abbreviation loop := (loop LINE_MAX sizeof_wchar_t wcwidth C).
Local Abbreviation sane := (sane LINE_MAX sizeof_wchar_t).

(** The first turn of the loop, told from the line alone. *)
Lemma loop_head line rest failed r o :
  sane -> 2 <= sizeof_wchar_t -> length r = Z.to_nat LINE_MAX ->
  if overlong LINE_MAX C line
  then loop (line :: rest) failed r o = OutOfBounds
  else exists r', length r' = length r /\
         loop (line :: rest) failed r o =
         match printf (line_value wcwidth C line) o with
         | None => Ran (Failure "printf", o)
         | Some o' => loop rest failed r' o'
         end.
Proof.
  intros Hs H2 Hr. cbn [Harness.loop].
  pose proof (body_exact LINE_MAX sizeof_wchar_t wcwidth C line r o
                Hs H2 Hr) as Hb.
  destruct (overlong LINE_MAX C line).
  - rewrite Hb. reflexivity.
  - destruct Hb as (r' & Hl & ->). exists r'. split; [exact Hl|].
    destruct (printf _ o); reflexivity.
Qed.

(** A line converted to its end: answered with the width of all its code
    points but the last when they are fewer than [LINE_MAX], stored past
    the array otherwise. *)
Lemma loop_head_terminated line cps c rest failed r o :
  sane -> 2 <= sizeof_wchar_t -> length r = Z.to_nat LINE_MAX ->
  decode C line = (cps ++ [c], Terminated) ->
  if (length (cps ++ [c]) <? Z.to_nat LINE_MAX)%nat
  then exists r', length r' = length r /\
         loop (line :: rest) failed r o =
         match printf (total_width wcwidth cps) o with
         | None => Ran (Failure "printf", o)
         | Some o' => loop rest failed r' o'
         end
  else loop (line :: rest) failed r o = OutOfBounds.
Proof.
  intros Hs H2 Hr Hd.
  pose proof (loop_head line rest failed r o Hs H2 Hr) as H.
  unfold overlong, line_value in H. rewrite Hd in H.
  cbn [line_width] in H. rewrite removelast_last in H.
  destruct (Nat.ltb_spec (length (cps ++ [c])) (Z.to_nat LINE_MAX));
    destruct (Nat.leb_spec (Z.to_nat LINE_MAX) (length (cps ++ [c])));
    try lia; exact H.
Qed.

End Turns.

(** C7: a line that is converted to code points ending with the newline
    is answered with the total width of the code points before the
    newline (-1 if one of them has no width), after which the loop goes
    on, when the code points with the newline are fewer than [LINE_MAX];
    when they are [LINE_MAX] or more the line is stored past the end of
    [runes] and no answer is defined. *)
Theorem terminated_line_answered_unless_too_long
  (LINE_MAX sizeof_wchar_t : Z) (wcwidth : Z -> Z) (C : codec)
  (line cps : list Z) (rest : list (list Z)) (failed : bool)
  (runes : list Z) (o : ostream Z) :
  sane LINE_MAX sizeof_wchar_t -> 2 <= sizeof_wchar_t ->
  length runes = Z.to_nat LINE_MAX ->
  decode C line = (cps ++ [10], Terminated) ->
  if (length (cps ++ [10%Z]) <? Z.to_nat LINE_MAX)%nat
  then exists runes', length runes' = length runes /\
         loop LINE_MAX sizeof_wchar_t wcwidth C (line :: rest) failed
           runes o =
         match printf (total_width wcwidth cps) o with
         | None => Ran (Failure "printf", o)
         | Some o' =>
             loop LINE_MAX sizeof_wchar_t wcwidth C rest failed runes' o'
         end
  else loop LINE_MAX sizeof_wchar_t wcwidth C (line :: rest) failed
         runes o = OutOfBounds.
Proof.
  intros Hs H2 Hr Hd.
  exact (loop_head_terminated LINE_MAX sizeof_wchar_t wcwidth C line cps 10
           rest failed runes o Hs H2 Hr Hd).
Qed.

(** C10: a last line without a newline, converted to the code points
    [cps] and a last one [c], is answered with the total width of [cps]
    alone, after which the run ends, when the code points are fewer than
    [LINE_MAX]; when they are [LINE_MAX] or more the line is stored past
    the end of [runes] and no answer is defined. *)
Theorem unterminated_line_answered_unless_too_long
  (LINE_MAX sizeof_wchar_t : Z) (wcwidth : Z -> Z) (C : codec)
  (line cps : list Z) (c : Z) (failed : bool)
  (runes : list Z) (o : ostream Z) :
  sane LINE_MAX sizeof_wchar_t -> 2 <= sizeof_wchar_t ->
  length runes = Z.to_nat LINE_MAX ->
  ~ In 10 line ->
  decode C line = (cps ++ [c], Terminated) ->
  if (length (cps ++ [c]) <? Z.to_nat LINE_MAX)%nat
  then loop LINE_MAX sizeof_wchar_t wcwidth C [line] failed runes o =
       match printf (total_width wcwidth cps) o with
       | None => Ran (Failure "printf", o)
       | Some o' => Ran (if failed then Failure "getline" else Success, o')
       end
  else loop LINE_MAX sizeof_wchar_t wcwidth C [line] failed runes o
       = OutOfBounds.
Proof.
  intros Hs H2 Hr _ Hd.
  pose proof (loop_head_terminated LINE_MAX sizeof_wchar_t wcwidth C line
                cps c [] failed runes o Hs H2 Hr Hd) as H.
  destruct (length (cps ++ [c]) <? Z.to_nat LINE_MAX)%nat; [|exact H].
  destruct H as (r' & _ & ->). destruct (printf _ o); reflexivity.
Qed.

(** C6: a line whose conversion stops at an invalid sequence after the
    code points [cps] is answered with -1, after which the loop goes on
    with the following lines, when [cps] are at most [LINE_MAX]; when
    they are more, they are stored past the end of [runes] before the
    invalid sequence is met, and neither this line nor the following
    ones have a defined answer. *)
Theorem invalid_line_answered_unless_too_long
  (LINE_MAX sizeof_wchar_t : Z) (wcwidth : Z -> Z) (C : codec)
  (line cps : list Z) (rest : list (list Z)) (failed : bool)
  (runes : list Z) (o : ostream Z) :
  sane LINE_MAX sizeof_wchar_t -> 2 <= sizeof_wchar_t ->
  length runes = Z.to_nat LINE_MAX ->
  decode C line = (cps, Invalid) ->
  if (length cps <=? Z.to_nat LINE_MAX)%nat
  then exists runes', length runes' = length runes /\
         loop LINE_MAX sizeof_wchar_t wcwidth C (line :: rest) failed
           runes o =
         match printf (-1) o with
         | None => Ran (Failure "printf", o)
         | Some o' =>
             loop LINE_MAX sizeof_wchar_t wcwidth C rest failed runes' o'
         end
  else loop LINE_MAX sizeof_wchar_t wcwidth C (line :: rest) failed
         runes o = OutOfBounds.
Proof.
  intros Hs H2 Hr Hd.
  pose proof (loop_head LINE_MAX sizeof_wchar_t wcwidth C line rest failed
                runes o Hs H2 Hr) as H.
  unfold overlong, line_value in H. rewrite Hd in H.
  cbn [line_width] in H.
  destruct (Nat.leb_spec (length cps) (Z.to_nat LINE_MAX));
    destruct (Nat.ltb_spec (Z.to_nat LINE_MAX) (length cps));
    try lia; exact H.
Qed.

(** *** The three statements at concrete lines, under [LINE_MAX = 2048],
    a four-byte [wchar_t], UTF-8 and [ascii_wcwidth] *)

Lemma sane_2048_4 : sane 2048 4.
Proof. repeat split; vm_compute; congruence. Qed.

Lemma plain_start_started :
  argc plain_start <= 1 /\ have_locale plain_start = true /\
  have_memory plain_start = true.
Proof. repeat split; vm_compute; congruence. Qed.

(** ["A\n"] yields 1; the line of 2047 letters and a newline has no
    defined answer. *)
Lemma terminated_line_answered_unless_too_long_witness :
  main 2048 4 ascii_wcwidth utf8 plain_start (mkIstream [0x41; 10] false)
    good_stream
  = Ran (Success, mkOstream [1] None) /\
  main 2048 4 ascii_wcwidth utf8 plain_start
    (mkIstream (repeat 0x41 2047 ++ [10]) false) good_stream
  = OutOfBounds.
Proof.
  destruct plain_start_started as (Ha & Hl & Hm).
  split; rewrite main_started by assumption; cbn [content broken].
  - assert (G : getlines [0x41; 10] = [[0x41; 10]])
      by (vm_compute; reflexivity).
    rewrite G.
    pose proof (terminated_line_answered_unless_too_long 2048 4
                  ascii_wcwidth utf8 [0x41; 10] [0x41] [] false
                  (map (stack plain_start) (seq 0 (Z.to_nat 2048)))
                  good_stream sane_2048_4 ltac:(lia)
                  (runes_length 2048 plain_start) eq_refl) as H.
    assert (B : (length ([0x41%Z] ++ [10%Z]) <? Z.to_nat 2048)%nat = true)
      by (vm_compute; reflexivity).
    rewrite B in H. destruct H as (r' & _ & ->). reflexivity.
  - assert (G : getlines (repeat 0x41 2047 ++ [10])
                = [repeat 0x41 2047 ++ [10]])
      by (vm_compute; reflexivity).
    rewrite G.
    assert (D : decode utf8 (repeat 0x41 2047 ++ [10])
                = (repeat 0x41 2047 ++ [10], Terminated))
      by (vm_compute; reflexivity).
    pose proof (terminated_line_answered_unless_too_long 2048 4
                  ascii_wcwidth utf8 (repeat 0x41 2047 ++ [10])
                  (repeat 0x41 2047) [] false
                  (map (stack plain_start) (seq 0 (Z.to_nat 2048)))
                  good_stream sane_2048_4 ltac:(lia)
                  (runes_length 2048 plain_start) D) as H.
    assert (B : (length (repeat 0x41%Z 2047 ++ [10%Z]) <? Z.to_nat 2048)%nat
                = false)
      by (vm_compute; reflexivity).
    rewrite B in H. exact H.
Defined.

(** A last line ["A"] without newline yields 0, not 1; a last line of
    2048 letters without newline has no defined answer. *)
Lemma unterminated_line_answered_unless_too_long_witness :
  main 2048 4 ascii_wcwidth utf8 plain_start (mkIstream [0x41] false)
    good_stream
  = Ran (Success, mkOstream [0] None) /\
  main 2048 4 ascii_wcwidth utf8 plain_start
    (mkIstream (repeat 0x41 2048) false) good_stream
  = OutOfBounds.
Proof.
  destruct plain_start_started as (Ha & Hl & Hm).
  split; rewrite main_started by assumption; cbn [content broken].
  - assert (G : getlines [0x41] = [[0x41]]) by (vm_compute; reflexivity).
    rewrite G.
    assert (N : ~ In 10 [0x41])
      by (intros [E|[]]; discriminate E).
    pose proof (unterminated_line_answered_unless_too_long 2048 4
                  ascii_wcwidth utf8 [0x41] [] 0x41 false
                  (map (stack plain_start) (seq 0 (Z.to_nat 2048)))
                  good_stream sane_2048_4 ltac:(lia)
                  (runes_length 2048 plain_start) N eq_refl) as H.
    assert (B : (length ([] ++ [0x41%Z]) <? Z.to_nat 2048)%nat = true)
      by (vm_compute; reflexivity).
    rewrite B in H. rewrite H. reflexivity.
  - assert (G : getlines (repeat 0x41 2048) = [repeat 0x41 2048])
      by (vm_compute; reflexivity).
    rewrite G.
    assert (N : ~ In 10 (repeat 0x41 2048))
      by (intros E; apply repeat_spec in E; discriminate E).
    assert (D : decode utf8 (repeat 0x41 2048)
                = (repeat 0x41 2047 ++ [0x41], Terminated))
      by (vm_compute; reflexivity).
    pose proof (unterminated_line_answered_unless_too_long 2048 4
                  ascii_wcwidth utf8 (repeat 0x41 2048)
                  (repeat 0x41 2047) 0x41 false
                  (map (stack plain_start) (seq 0 (Z.to_nat 2048)))
                  good_stream sane_2048_4 ltac:(lia)
                  (runes_length 2048 plain_start) N D) as H.
    assert (B : (length (repeat 0x41%Z 2047 ++ [0x41%Z]) <? Z.to_nat 2048)%nat
                = false)
      by (vm_compute; reflexivity).
    rewrite B in H. exact H.
Defined.

(** The invalid byte 0xFF yields -1 and the line ["B\n"] after it yields
    1; after 2049 letters the same byte has no defined answer, and
    neither has the line ["B\n"] that follows. *)
Lemma invalid_line_answered_unless_too_long_witness :
  main 2048 4 ascii_wcwidth utf8 plain_start
    (mkIstream ([0xFF; 10] ++ [0x42; 10]) false) good_stream
  = Ran (Success, mkOstream [-1; 1] None) /\
  main 2048 4 ascii_wcwidth utf8 plain_start
    (mkIstream ((repeat 0x41 2049 ++ [0xFF; 10]) ++ [0x42; 10]) false)
    good_stream
  = OutOfBounds.
Proof.
  destruct plain_start_started as (Ha & Hl & Hm).
  split; rewrite main_started by assumption; cbn [content broken].
  - assert (G : getlines ([0xFF; 10] ++ [0x42; 10])
                = [[0xFF; 10]; [0x42; 10]])
      by (vm_compute; reflexivity).
    rewrite G.
    pose proof (invalid_line_answered_unless_too_long 2048 4
                  ascii_wcwidth utf8 [0xFF; 10] [] [[0x42; 10]] false
                  (map (stack plain_start) (seq 0 (Z.to_nat 2048)))
                  good_stream sane_2048_4 ltac:(lia)
                  (runes_length 2048 plain_start) eq_refl) as H.
    assert (B : (length (@nil Z) <=? Z.to_nat 2048)%nat = true)
      by (vm_compute; reflexivity).
    rewrite B in H. destruct H as (r' & Hr & ->).
    cbn [printf good_stream room written app].
    rewrite (loop_exact 2048 4 ascii_wcwidth utf8 [[0x42; 10]] false r'
               [-1] sane_2048_4 ltac:(lia)
               (eq_trans Hr (runes_length 2048 plain_start))).
    vm_compute. reflexivity.
  - assert (G : getlines ((repeat 0x41 2049 ++ [0xFF; 10]) ++ [0x42; 10])
                = [repeat 0x41 2049 ++ [0xFF; 10]; [0x42; 10]])
      by (vm_compute; reflexivity).
    rewrite G.
    assert (D : decode utf8 (repeat 0x41 2049 ++ [0xFF; 10])
                = (repeat 0x41 2049, Invalid))
      by (vm_compute; reflexivity).
    pose proof (invalid_line_answered_unless_too_long 2048 4
                  ascii_wcwidth utf8 (repeat 0x41 2049 ++ [0xFF; 10])
                  (repeat 0x41 2049) [[0x42; 10]] false
                  (map (stack plain_start) (seq 0 (Z.to_nat 2048)))
                  good_stream sane_2048_4 ltac:(lia)
                  (runes_length 2048 plain_start) D) as H.
    assert (B : (length (repeat 0x41%Z 2049) <=? Z.to_nat 2048)%nat = false)
      by (vm_compute; reflexivity).
    rewrite B in H. exact H.
Defined.

End HarnessLines.

(** * The printed text *)

Module TextFacts.
Import Compressor.

Local Open Scope string_scope.

Lemma uint_plain (d : Decimal.uint) : plain (NilEmpty.string_of_uint d).
Proof.
  induction d; cbn [NilEmpty.string_of_uint plain]; auto;
    repeat split; auto; discriminate.
Qed.

Lemma show_int_plain (z : Z) : plain (show_int z).
Proof.
  unfold show_int, NilZero.string_of_int, NilZero.string_of_uint.
  destruct (Z.to_int z) as [d|d].
  - destruct d; try apply uint_plain.
    cbn [plain]. repeat split; discriminate.
  - cbn [plain]. split; [discriminate|]. split; [discriminate|].
    destruct d; try apply uint_plain.
    cbn [plain]. repeat split; discriminate.
Qed.

Lemma show_int_inj (z1 z2 : Z) : show_int z1 = show_int z2 -> z1 = z2.
Proof.
  unfold show_int. intros H. apply DecimalZ.to_int_inj.
  assert (Hn : forall z, Z.to_int z <> Decimal.Pos Decimal.Nil /\
                         Z.to_int z <> Decimal.Neg Decimal.Nil).
  { intros [|p|p]; cbn [Z.to_int]; split; try discriminate;
      intros E; inversion E as [E'];
      apply (DecimalPos.Unsigned.to_uint_nonnil p E'). }
  assert (E : Some (Z.to_int z1) = Some (Z.to_int z2)).
  { rewrite <- (NilZero.isi (Z.to_int z1)) by apply Hn.
    rewrite <- (NilZero.isi (Z.to_int z2)) by apply Hn.
    rewrite H. reflexivity. }
  inversion E. reflexivity.
Qed.

(** Two texts that begin with a plain word and a separator agree on the
    word and on what follows the separator. *)
Lemma plain_split (a : string) : forall b c x y,
  plain a -> plain b ->
  c = " "%char \/ c = Ascii.ascii_of_nat 10 ->
  a ++ String c x = b ++ String c y -> a = b /\ x = y.
Proof.
  induction a as [|c1 a IH]; intros b c x y Ha Hb Hc H;
    destruct b as [|c2 b]; cbn [append plain] in *.
  - inversion H. auto.
  - inversion H; subst. destruct Hb as (H1 & H2 & _).
    destruct Hc; contradiction.
  - inversion H; subst. destruct Ha as (H1 & H2 & _).
    destruct Hc; contradiction.
  - inversion H; subst.
    destruct Ha as (_ & _ & Ha). destruct Hb as (_ & _ & Hb).
    destruct (IH b c x y Ha Hb Hc) as [-> ->]; auto.
Qed.

(** A record line followed by more text. *)
Lemma show_range_then (r : range) (t : string) :
  show_range r ++ t =
  show_int (width r) ++ String " "
    (show_int (first r) ++ String " "
       (show_int (last r) ++ String (Ascii.ascii_of_nat 10) t)).
Proof.
  unfold show_range. rewrite !HarnessFacts.append_assoc. reflexivity.
Qed.

Lemma show_range_split (r1 r2 : range) (t1 t2 : string) :
  show_range r1 ++ t1 = show_range r2 ++ t2 -> r1 = r2 /\ t1 = t2.
Proof.
  rewrite !show_range_then. intros H.
  apply plain_split in H; auto using show_int_plain.
  destruct H as [Hw H].
  apply plain_split in H; auto using show_int_plain.
  destruct H as [Hf H].
  apply plain_split in H; auto using show_int_plain.
  destruct H as [Hl Ht].
  apply show_int_inj in Hw, Hf, Hl.
  destruct r1, r2; cbn [width first last] in *; subst; auto.
Qed.

Lemma table_text_inj (l1 : list range) : forall l2,
  fold_right append EmptyString (map show_range l1) =
  fold_right append EmptyString (map show_range l2) -> l1 = l2.
Proof.
  induction l1 as [|r1 l1 IH]; intros [|r2 l2] H; cbn [map fold_right] in H.
  - reflexivity.
  - rewrite show_range_then in H.
    destruct (show_int (width r2)); discriminate.
  - rewrite show_range_then in H.
    destruct (show_int (width r1)); discriminate.
  - apply show_range_split in H. destruct H as [-> H].
    rewrite (IH l2 H). reflexivity.
Qed.

Lemma answers_text_inj (l1 : list Z) : forall l2,
  fold_right append EmptyString (map Harness.show_line l1) =
  fold_right append EmptyString (map Harness.show_line l2) -> l1 = l2.
Proof.
  induction l1 as [|w1 l1 IH]; intros [|w2 l2] H; cbn [map fold_right] in H;
    unfold Harness.show_line in H; rewrite ?HarnessFacts.append_assoc in H.
  - reflexivity.
  - destruct (show_int w2); discriminate.
  - destruct (show_int w1); discriminate.
  - cbn [append] in H.
    apply plain_split in H; auto using show_int_plain.
    destruct H as [Hw H]. apply show_int_inj in Hw. subst.
    rewrite (IH l2 H). reflexivity.
Qed.

(** X15: the text that the compressor prints determines the records: two
    runs whose standard outputs read the same have printed the same
    widths, first and last code points, line by line. *)
Theorem table_text_determines_records
  (w1 w2 : Z -> Z) (o1 o2 : ostream range) :
  stdout_text w1 o1 = stdout_text w2 o2 -> emitted w1 o1 = emitted w2 o2.
Proof.
  unfold stdout_text. apply table_text_inj.
Qed.

Lemma table_text_determines_records_witness :
  emitted sample_wcwidth (mkOstream [] (Some 1%nat)) =
  emitted Harness.ascii_wcwidth (mkOstream [] (Some 1%nat)).
Proof.
  apply table_text_determines_records. vm_compute. reflexivity.
Defined.

(** X16: the text that the harness prints determines the answers, one
    number per line. *)
Theorem answers_text_determines_widths (o1 o2 : ostream Z) :
  Harness.stdout_text o1 = Harness.stdout_text o2 ->
  written o1 = written o2.
Proof.
  unfold Harness.stdout_text. apply answers_text_inj.
Qed.

Lemma answers_text_determines_widths_witness :
  written (mkOstream [2; -1; 0] None) =
  written (mkOstream [2; -1; 0] (Some 3%nat)).
Proof.
  apply answers_text_determines_widths. vm_compute. reflexivity.
Defined.

End TextFacts.
